(** * Proty content calendar: post store, month grid and edit buffer

    A shallow embedding of the TypeScript sources

      - [src/App.tsx]: [postsByDate], [handleSavePost], [handleDeletePost]
        and the month navigation;
      - the [Calendar] component ([./components/Calendar]): the month grid;
      - the [PostModal] component ([./components/PostModal]): [handleSave],
        [handleAddComment], [handleDelete], [handleGenerateCaption] and
        [handleImageUpload];
      - [src/components/ImageCarousel.tsx]: the carousel's two buttons and
        what it renders;
      - [src/services/geminiService.ts]: [suggestCaption];
      - the types module ([./types]): [Post], [Comment], [PostStatus];

    together with the parts of ECMAScript the code calls: the [Date] time-value
    algorithms of ECMA-262 section 21.4.1, [Date.prototype.toDateString],
    [Date.prototype.toISOString], [String.prototype.trim] and the two string
    helpers used by [base64ToInlineData].

    Conventions.
      - A JavaScript string is its sequence of UTF-16 code units.
      - A JavaScript Number that the program only ever uses as an integer is an
        [option Z]; [None] is NaN.
      - A [Date] object is its time value (milliseconds since the epoch, or NaN
        for an invalid date).  The loop of the calendar mutates one [Date]; the
        embedding threads that value through the loop.
      - The host time zone is a [TimeZone]: the offset of local time from
        UTC as a function of the time, ECMA-262's LocalTZA(t, isUTC).  It is a
        parameter of everything that reads local fields.  [fixedZone] is a
        host without transitions, [transitionZone] a host with one.
      - [new Date()] reads the clock; every function that calls it takes the
        clock reading as an argument. *)

From Stdlib Require Import ZArith NArith List String Ascii Bool Lia Permutation.
From Stdlib Require Import DecimalN DecimalPos.
From stdpp Require Import base option list gmap.
Import ListNotations.

Local Open Scope Z_scope.

(** ** JavaScript strings *)

Abbreviation CodeUnit := N (only parsing).
Abbreviation JSString := (list N) (only parsing).

(** A string literal of the source, as code units (ASCII literals only). *)
Definition str (s : string) : JSString :=
  List.map N_of_ascii (list_ascii_of_string s).

(** ToBoolean on a string: the empty string is the only falsy one. *)
Definition truthy_string (s : JSString) : bool :=
  match s with
  | [] => false
  | _ :: _ => true
  end.

(** ECMA-262 12.2 and 12.3: the code points [String.prototype.trim] strips.
    WhiteSpace is TAB, VT, FF, ZWNBSP and the category Zs; LineTerminator is
    LF, CR, LS, PS. *)
Definition isLineTerminator (c : CodeUnit) : bool :=
  ((c =? 10) || (c =? 13) || (c =? 8232) || (c =? 8233))%N.

Definition isWhiteSpace (c : CodeUnit) : bool :=
  ((c =? 9) || (c =? 11) || (c =? 12) || (c =? 65279)
   || (c =? 32) || (c =? 160) || (c =? 5760)
   || ((8192 <=? c) && (c <=? 8202))
   || (c =? 8239) || (c =? 8287) || (c =? 12288))%N.

Definition isTrimmed (c : CodeUnit) : bool :=
  isWhiteSpace c || isLineTerminator c.

Fixpoint trimStart (s : JSString) : JSString :=
  match s with
  | [] => []
  | c :: s' => if isTrimmed c then trimStart s' else s
  end.

Definition trimEnd (s : JSString) : JSString :=
  rev (trimStart (rev s)).

(** [String.prototype.trim]. *)
Definition trim (s : JSString) : JSString :=
  trimEnd (trimStart s).

(** *** Decimal rendering (ECMA-262 ToZeroPaddedDecimalString) *)

Fixpoint uint_units (d : Decimal.uint) : JSString :=
  match d with
  | Decimal.Nil => []
  | Decimal.D0 d => 48%N :: uint_units d
  | Decimal.D1 d => 49%N :: uint_units d
  | Decimal.D2 d => 50%N :: uint_units d
  | Decimal.D3 d => 51%N :: uint_units d
  | Decimal.D4 d => 52%N :: uint_units d
  | Decimal.D5 d => 53%N :: uint_units d
  | Decimal.D6 d => 54%N :: uint_units d
  | Decimal.D7 d => 55%N :: uint_units d
  | Decimal.D8 d => 56%N :: uint_units d
  | Decimal.D9 d => 57%N :: uint_units d
  end.

(** The decimal digits of a non-negative integer, most significant first,
    left-padded with the digit 0 up to [minLength] code units. *)
Definition ToZeroPaddedDecimalString (n : Z) (minLength : nat) : JSString :=
  let S := uint_units (N.to_uint (Z.to_N n)) in
  repeat 48%N (minLength - length S) ++ S.

(** ** ECMA-262 21.4.1: time values *)

Module Ecma.

Definition msPerDay : Z := 86400000.
Definition HoursPerDay : Z := 24.
Definition MinutesPerHour : Z := 60.
Definition SecondsPerMinute : Z := 60.
Definition msPerSecond : Z := 1000.
Definition msPerMinute : Z := 60000.
Definition msPerHour : Z := 3600000.

Definition Day (t : Z) : Z := t / msPerDay.
Definition TimeWithinDay (t : Z) : Z := t mod msPerDay.

Definition DaysInYear (y : Z) : Z :=
  if negb (y mod 4 =? 0) then 365
  else if negb (y mod 100 =? 0) then 366
  else if negb (y mod 400 =? 0) then 365
  else 366.

Definition DayFromYear (y : Z) : Z :=
  365 * (y - 1970) + (y - 1969) / 4 - (y - 1901) / 100 + (y - 1601) / 400.

Definition TimeFromYear (y : Z) : Z := msPerDay * DayFromYear y.

(** ECMA-262 defines [YearFromTime t] as the largest [y] with
    [TimeFromYear y <= t].  The executable form estimates the year from the
    mean length of a Gregorian year and corrects the estimate by at most one;
    [YearFromTime_largest] below shows it is that largest [y]. *)
Definition YearFromTime (t : Z) : Z :=
  let d := Day t in
  let y := 1970 + (d * 400) / 146097 in
  if d <? DayFromYear y then y - 1
  else if DayFromYear (y + 1) <=? d then y + 1
  else y.

Definition InLeapYear (t : Z) : Z :=
  if DaysInYear (YearFromTime t) =? 366 then 1 else 0.

Definition DayWithinYear (t : Z) : Z :=
  Day t - DayFromYear (YearFromTime t).

Definition MonthFromTime (t : Z) : Z :=
  let d := DayWithinYear t in
  let leap := InLeapYear t in
  if d <? 31 then 0
  else if d <? 59 + leap then 1
  else if d <? 90 + leap then 2
  else if d <? 120 + leap then 3
  else if d <? 151 + leap then 4
  else if d <? 181 + leap then 5
  else if d <? 212 + leap then 6
  else if d <? 243 + leap then 7
  else if d <? 273 + leap then 8
  else if d <? 304 + leap then 9
  else if d <? 334 + leap then 10
  else 11.

Definition DateFromTime (t : Z) : Z :=
  let d := DayWithinYear t in
  let leap := InLeapYear t in
  match MonthFromTime t with
  | 0 => d + 1
  | 1 => d - 30
  | 2 => d - 58 - leap
  | 3 => d - 89 - leap
  | 4 => d - 119 - leap
  | 5 => d - 150 - leap
  | 6 => d - 180 - leap
  | 7 => d - 211 - leap
  | 8 => d - 242 - leap
  | 9 => d - 272 - leap
  | 10 => d - 303 - leap
  | _ => d - 333 - leap
  end.

Definition WeekDay (t : Z) : Z := (Day t + 4) mod 7.

Definition HourFromTime (t : Z) : Z := (t / msPerHour) mod HoursPerDay.
Definition MinFromTime (t : Z) : Z := (t / msPerMinute) mod MinutesPerHour.
Definition SecFromTime (t : Z) : Z := (t / msPerSecond) mod SecondsPerMinute.
Definition msFromTime (t : Z) : Z := t mod msPerSecond.

Definition MakeTime (hour min sec ms : Z) : Z :=
  hour * msPerHour + min * msPerMinute + sec * msPerSecond + ms.

(** Days from 1 January to the first of month [mn] (0..11) in a year with
    [leap] leap days; the boundaries of [MonthFromTime]. *)
Definition DaysBeforeMonth (mn leap : Z) : Z :=
  match mn with
  | 0 => 0
  | 1 => 31
  | 2 => 59 + leap
  | 3 => 90 + leap
  | 4 => 120 + leap
  | 5 => 151 + leap
  | 6 => 181 + leap
  | 7 => 212 + leap
  | 8 => 243 + leap
  | 9 => 273 + leap
  | 10 => 304 + leap
  | _ => 334 + leap
  end.

(** ECMA-262 MakeDay: [ym] and [mn] normalise the month, the day number of
    the first of that month is found, and [date - 1] is added.  (The NaN
    result for years beyond the representable range cannot arise from the
    year of a valid [Date], which is all this program passes.) *)
Definition MakeDay (year month date : Z) : Z :=
  let ym := year + month / 12 in
  let mn := month mod 12 in
  let leap := if DaysInYear ym =? 366 then 1 else 0 in
  DayFromYear ym + DaysBeforeMonth mn leap + date - 1.

Definition MakeDate (day time : Z) : Z := day * msPerDay + time.

Definition MakeFullYear (year : Z) : Z :=
  if (0 <=? year) && (year <=? 99) then 1900 + year else year.

Definition TimeClip (time : Z) : option Z :=
  if 8640000000000000 <? Z.abs time then None else Some time.

End Ecma.

(** ** The [Date] object *)

(** A Number used as an integer; [None] is NaN. *)
Abbreviation Number := (option Z) (only parsing).

(** A [Date] is its time value. *)
Abbreviation Date := (option Z) (only parsing).

Definition DayNames : list JSString :=
  [str "Sun"; str "Mon"; str "Tue"; str "Wed"; str "Thu"; str "Fri"; str "Sat"].

Definition MonthNames : list JSString :=
  [str "Jan"; str "Feb"; str "Mar"; str "Apr"; str "May"; str "Jun";
   str "Jul"; str "Aug"; str "Sep"; str "Oct"; str "Nov"; str "Dec"].

(** ECMA-262 21.4.4.41.2 DateString. *)
Definition DateString (tv : Z) : JSString :=
  let weekday := nth (Z.to_nat (Ecma.WeekDay tv)) DayNames [] in
  let month := nth (Z.to_nat (Ecma.MonthFromTime tv)) MonthNames [] in
  let day := ToZeroPaddedDecimalString (Ecma.DateFromTime tv) 2 in
  let yv := Ecma.YearFromTime tv in
  let yearSign := if 0 <=? yv then [] else str "-" in
  let paddedYear := ToZeroPaddedDecimalString (Z.abs yv) 4 in
  weekday ++ str " " ++ month ++ str " " ++ day ++ str " " ++ yearSign ++ paddedYear.

(** [Date.prototype.toISOString] on a valid time value (the program calls it
    on [new Date()] only, which is never invalid): UTC fields, a four-digit
    year from 0 to 9999 and a signed six-digit year otherwise. *)
Definition toISOString (tv : Z) : JSString :=
  let yv := Ecma.YearFromTime tv in
  let year :=
    if (0 <=? yv) && (yv <=? 9999) then ToZeroPaddedDecimalString yv 4
    else (if 0 <=? yv then str "+" else str "-")
           ++ ToZeroPaddedDecimalString (Z.abs yv) 6 in
  year ++ str "-" ++ ToZeroPaddedDecimalString (Ecma.MonthFromTime tv + 1) 2
       ++ str "-" ++ ToZeroPaddedDecimalString (Ecma.DateFromTime tv) 2
       ++ str "T" ++ ToZeroPaddedDecimalString (Ecma.HourFromTime tv) 2
       ++ str ":" ++ ToZeroPaddedDecimalString (Ecma.MinFromTime tv) 2
       ++ str ":" ++ ToZeroPaddedDecimalString (Ecma.SecFromTime tv) 2
       ++ str "." ++ ToZeroPaddedDecimalString (Ecma.msFromTime tv) 3
       ++ str "Z".

(** The host's time zone is ECMA-262's LocalTZA(t, isUTC): the offset of
    local time from UTC, in milliseconds, in effect at the instant [t] when
    [isUTC] is true and at the local time [t] when it is false.  A local time
    that a transition of the zone skips or repeats is read with the offset
    before the transition. *)
Record TimeZone : Type := { LocalTZA : Z -> bool -> Z }.

(** A host without transitions: one offset at all times. *)
Definition fixedZone (tza : Z) : TimeZone := {| LocalTZA := fun _ _ => tza |}.

(** A host with one transition, at the instant [at_utc], from the offset
    [before] to the offset [after].  The local times between
    [at_utc + before] and [at_utc + after] are skipped (clocks forward) or
    repeated (clocks back); they are read with [before]. *)
Definition transitionZone (before after at_utc : Z) : TimeZone :=
  {| LocalTZA := fun t isUTC =>
       if isUTC
       then (if t <? at_utc then before else after)
       else (if t <? at_utc + Z.max before after then before else after) |}.

Section Host.

Variable zone : TimeZone.

(** ECMA-262 21.4.1: LocalTime(t) = t + LocalTZA(t, true) and
    UTC(t) = t - LocalTZA(t, false). *)
Definition LocalTime (t : Z) : Z := t + LocalTZA zone t true.
Definition UTC (t : Z) : Z := t - LocalTZA zone t false.

(** [new Date(year, month, date)]: a NaN argument gives an invalid date; a
    year from 0 to 99 means 1900 + year. *)
Definition newDate (year month date : Number) : Date :=
  match year, month, date with
  | Some y, Some m, Some dt =>
      let yr := Ecma.MakeFullYear y in
      let finalDate := Ecma.MakeDate (Ecma.MakeDay yr m dt) (Ecma.MakeTime 0 0 0 0) in
      Ecma.TimeClip (UTC finalDate)
  | _, _, _ => None
  end.

Definition getFullYear (d : Date) : Number :=
  (fun t => Ecma.YearFromTime (LocalTime t)) <$> d.
Definition getMonth (d : Date) : Number :=
  (fun t => Ecma.MonthFromTime (LocalTime t)) <$> d.
Definition getDate (d : Date) : Number :=
  (fun t => Ecma.DateFromTime (LocalTime t)) <$> d.
Definition getDay (d : Date) : Number :=
  (fun t => Ecma.WeekDay (LocalTime t)) <$> d.

(** [d.setDate(dt)], as the new time value of [d]. *)
Definition setDate (d : Date) (dt : Number) : Date :=
  match d, dt with
  | Some tv, Some dt =>
      let t := LocalTime tv in
      let newDate :=
        Ecma.MakeDate (Ecma.MakeDay (Ecma.YearFromTime t) (Ecma.MonthFromTime t) dt)
                      (Ecma.TimeWithinDay t) in
      Ecma.TimeClip (UTC newDate)
  | _, _ => None
  end.

Definition toDateString (d : Date) : JSString :=
  match d with
  | None => str "Invalid Date"
  | Some tv => DateString (LocalTime tv)
  end.

(** [a <= b] on two dates compares time values; false when either is NaN. *)
Definition date_le (a b : Date) : bool :=
  match a, b with
  | Some x, Some y => x <=? y
  | _, _ => false
  end.

(** [a === b] on Numbers: NaN equals nothing. *)
Definition number_eq (a b : Number) : bool :=
  match a, b with
  | Some x, Some y => x =? y
  | _, _ => false
  end.

(** [a + k] and [a - k] with a literal [k]. *)
Definition number_add (a : Number) (k : Z) : Number := (fun x => x + k) <$> a.

End Host.

(** ** Completions

    A call either returns normally or throws; an [async] function either
    fulfils or rejects its promise.  Both are a [Completion]. *)

Inductive Completion (A : Type) : Type :=
  | Normal (a : A)
  | Throw (error : JSString).

Arguments Normal {A} a.
Arguments Throw {A} error.

#[global] Instance Completion_ret : MRet Completion := fun A a => Normal a.

#[global] Instance Completion_bind : MBind Completion :=
  fun A B k c =>
    match c with
    | Normal a => k a
    | Throw e => Throw e
    end.

(** [try { body } catch (error) { handler }]. *)
Definition try_catch {A : Type} (body : Completion A) (handler : JSString -> Completion A)
  : Completion A :=
  match body with
  | Normal a => Normal a
  | Throw e => handler e
  end.

(** ** The types module ([./types]) *)

Inductive PostStatus : Type :=
  | Draft
  | PendingReview
  | NeedsRevision
  | Approved.

Inductive Author : Type :=
  | Designer
  | Reviewer.

Record Comment : Type := {
  comment_id : JSString;
  author : Author;
  text : JSString;
  timestamp : Date
}.

Record Post : Type := {
  post_id : JSString;
  date : Date;
  images : list JSString;
  caption : JSString;
  status : PostStatus;
  comments : list Comment
}.

(** [Omit<Post, 'id'> & { id?: string }]: the argument of [handleSavePost]. *)
Record PostInput : Type := {
  input_id : option JSString;
  input_date : Date;
  input_images : list JSString;
  input_caption : JSString;
  input_status : PostStatus;
  input_comments : list Comment
}.

#[global] Instance PostStatus_eq_dec : EqDecision PostStatus.
Proof. solve_decision. Defined.
#[global] Instance Author_eq_dec : EqDecision Author.
Proof. solve_decision. Defined.
#[global] Instance Comment_eq_dec : EqDecision Comment.
Proof. solve_decision. Defined.
#[global] Instance Post_eq_dec : EqDecision Post.
Proof. solve_decision. Defined.

(** ** src/App.tsx *)

Record AppState : Type := {
  currentDate : Date;
  posts : list Post;
  isModalOpen : bool;
  selectedPost : option Post;
  selectedDate : option Date
}.

Section App.

Variable zone : TimeZone.

(** The [useMemo] body: a [Map] from [toDateString] keys to arrays, filled by
    one pass over [posts]; [push] extends the array stored under the key. *)
Definition postsByDate_step (map : gmap JSString (list Post)) (post : Post)
  : gmap JSString (list Post) :=
  let dateKey := toDateString zone (date post) in
  let map := if bool_decide (is_Some (map !! dateKey)) then map
             else <[dateKey := []]> map in
  match map !! dateKey with
  | Some bucket => <[dateKey := bucket ++ [post]]> map
  | None => map
  end.

Definition postsByDate (posts : list Post) : gmap JSString (list Post) :=
  foldl postsByDate_step ∅ posts.

Definition handleSelectDate (d : Date) (st : AppState) : AppState :=
  {| currentDate := currentDate st; posts := posts st;
     isModalOpen := true; selectedPost := None; selectedDate := Some d |}.

Definition handleSelectPost (post : Post) (st : AppState) : AppState :=
  {| currentDate := currentDate st; posts := posts st;
     isModalOpen := true; selectedPost := Some post; selectedDate := None |}.

Definition handleCloseModal (st : AppState) : AppState :=
  {| currentDate := currentDate st; posts := posts st;
     isModalOpen := false; selectedPost := None; selectedDate := None |}.

Definition setPosts (f : list Post -> list Post) (st : AppState) : AppState :=
  {| currentDate := currentDate st; posts := f (posts st);
     isModalOpen := isModalOpen st; selectedPost := selectedPost st;
     selectedDate := selectedDate st |}.

Definition setCurrentDate (d : Date) (st : AppState) : AppState :=
  {| currentDate := d; posts := posts st;
     isModalOpen := isModalOpen st; selectedPost := selectedPost st;
     selectedDate := selectedDate st |}.

(** [{ ...p, ...postToSave, id }]: every field but [id] is required in
    [postToSave], so the spread takes all five from it. *)
Definition spread_with_id (postToSave : PostInput) (i : JSString) : Post :=
  {| post_id := i;
     date := input_date postToSave;
     images := input_images postToSave;
     caption := input_caption postToSave;
     status := input_status postToSave;
     comments := input_comments postToSave |}.

(** [now] is the clock reading of [new Date()] in the create branch.  The
    test [if (postToSave.id)] is a truthiness test: an undefined and an empty
    id both take the create branch. *)
Definition handleSavePost (now : Z) (postToSave : PostInput) (st : AppState) : AppState :=
  let create :=
    let newPost := spread_with_id postToSave (toISOString now) in
    setPosts (fun prevPosts => prevPosts ++ [newPost]) st in
  let st' :=
    match input_id postToSave with
    | Some i =>
        if truthy_string i then
          setPosts (fun prevPosts =>
            List.map (fun p => if bool_decide (post_id p = i)
                               then spread_with_id postToSave i else p) prevPosts) st
        else create
    | None => create
    end in
  handleCloseModal st'.

Definition handleDeletePost (postId : JSString) (st : AppState) : AppState :=
  handleCloseModal
    (setPosts (fun prevPosts =>
       List.filter (fun p => negb (bool_decide (post_id p = postId))) prevPosts) st).

Definition goToPreviousMonth (st : AppState) : AppState :=
  setCurrentDate
    (newDate zone (getFullYear zone (currentDate st))
                      (number_add (getMonth zone (currentDate st)) (-1))
                      (Some 1)) st.

Definition goToNextMonth (st : AppState) : AppState :=
  setCurrentDate
    (newDate zone (getFullYear zone (currentDate st))
                      (number_add (getMonth zone (currentDate st)) 1)
                      (Some 1)) st.

Definition goToToday (now : Z) (st : AppState) : AppState :=
  setCurrentDate (Some now) st.

End App.

(** ** The [Calendar] component *)

(** One rendered day cell: the values the JSX of a cell is computed from. *)
Record DayCell : Type := {
  cell_date : Date;
  postsForDay : list Post;
  cellIsToday : bool;
  isLastCol : bool;
  isLastRow : bool
}.

(** The rendered grid: the keys of the empty leading cells, then the day
    cells. *)
Record CalendarGrid : Type := {
  emptyCells : list nat;
  dayCells : list DayCell
}.

Section Calendar.

Variable zone : TimeZone.

(** The [for] loop that fills [daysInMonth].  [date] is the loop's mutable
    [Date]; each turn pushes a copy and advances it with [setDate].  [None]
    means the fuel ran out before the loop condition failed. *)
Fixpoint daysLoop (fuel : nat) (date lastDayOfMonth : Date) (daysInMonth : list Date)
  : option (list Date) :=
  match fuel with
  | O => None
  | S fuel' =>
      if date_le date lastDayOfMonth then
        daysLoop fuel'
          (setDate zone date (number_add (getDate zone date) 1))
          lastDayOfMonth
          (daysInMonth ++ [date])
      else Some daysInMonth
  end.

(** [Math.ceil(n / 7)]. *)
Definition ceil_div7 (n : Z) : Z := - ((- n) / 7).

(** [Array.from({ length: n })] has ToLength(n) elements: none for NaN. *)
Definition array_from_length (n : Number) : list nat :=
  match n with
  | Some k => seq 0 (Z.to_nat k)
  | None => []
  end.

Definition isToday (today : Date) (d : Date) : bool :=
  number_eq (getDate zone d) (getDate zone today)
  && number_eq (getMonth zone d) (getMonth zone today)
  && number_eq (getFullYear zone d) (getFullYear zone today).

Definition renderCell (postsByDate : gmap JSString (list Post)) (today : Date)
    (startingDayOfWeek : Number) (count : nat) (index : nat) (d : Date) : DayCell :=
  let dateKey := toDateString zone d in
  {| cell_date := d;
     postsForDay := default [] (postsByDate !! dateKey);
     cellIsToday := isToday today d;
     isLastCol :=
       match startingDayOfWeek with
       | Some s => (s + Z.of_nat index) mod 7 =? 6
       | None => false
       end;
     isLastRow :=
       match startingDayOfWeek with
       | Some s => ceil_div7 (s + Z.of_nat count) =? ceil_div7 (s + Z.of_nat index + 1)
       | None => false
       end |}.

(** The component body.  [now] is the clock reading of [const today = new
    Date()]. *)
Definition Calendar (fuel : nat) (now : Z) (currentDate : Date)
    (postsByDate : gmap JSString (list Post)) : option CalendarGrid :=
  let year := getFullYear zone currentDate in
  let month := getMonth zone currentDate in
  let firstDayOfMonth := newDate zone year month (Some 1) in
  let lastDayOfMonth := newDate zone year (number_add month 1) (Some 0) in
  match daysLoop fuel firstDayOfMonth lastDayOfMonth [] with
  | None => None
  | Some daysInMonth =>
      let startingDayOfWeek := getDay zone firstDayOfMonth in
      let today := Some now in
      Some {| emptyCells := array_from_length startingDayOfWeek;
              dayCells := imap (renderCell postsByDate today startingDayOfWeek
                                           (length daysInMonth)) daysInMonth |}
  end.

End Calendar.

(** ** The [PostModal] component *)

(** The modal's local state (the edit buffer). *)
Record ModalState : Type := {
  m_images : list JSString;
  m_caption : JSString;
  m_status : PostStatus;
  m_comments : list Comment;
  newComment : JSString;
  isGeneratingCaption : bool
}.

(** The [useEffect] on [post]: the buffer is reloaded from the edited post,
    or cleared when there is none; the other two state cells are kept. *)
Definition loadPost (post : option Post) (m : ModalState) : ModalState :=
  match post with
  | Some p =>
      {| m_images := images p; m_caption := caption p; m_status := status p;
         m_comments := comments p;
         newComment := newComment m; isGeneratingCaption := isGeneratingCaption m |}
  | None =>
      {| m_images := []; m_caption := []; m_status := Draft; m_comments := [];
         newComment := newComment m; isGeneratingCaption := isGeneratingCaption m |}
  end.

(** [handleSave].  [post?.date || date]: a [Date] object is truthy, so the
    edited post's date wins whenever there is a post.  The result is the
    argument [onSave] was called with, if it was called. *)
Definition handleSave (post : option Post) (date_prop : option Date) (m : ModalState)
  : Completion (option PostInput) :=
  let postDate :=
    match post with
    | Some p => Some (date p)
    | None => date_prop
    end in
  match postDate with
  | None => Normal None
  | Some d =>
      Normal (Some {| input_id := post_id <$> post;
                      input_date := d;
                      input_images := m_images m;
                      input_caption := m_caption m;
                      input_status := m_status m;
                      input_comments := m_comments m |})
  end.

(** [handleAddComment]; [now] and [now'] are the clock readings of its two
    [new Date()] calls, for the id and for the timestamp. *)
Definition handleAddComment (now now' : Z) (a : Author) (m : ModalState) : ModalState :=
  if bool_decide (trim (newComment m) = []) then m
  else
    let comment :=
      {| comment_id := toISOString now; author := a;
         text := newComment m; timestamp := Some now' |} in
    {| m_images := m_images m; m_caption := m_caption m; m_status := m_status m;
       m_comments := m_comments m ++ [comment];
       newComment := [];
       isGeneratingCaption := isGeneratingCaption m |}.

(** The Save button of the modal as wired in [App]: [post] and [date] are
    [selectedPost] and [selectedDate], [onSave] is [handleSavePost]. *)
Definition clickSave (now : Z) (m : ModalState) (st : AppState) : Completion AppState :=
  r ← handleSave (selectedPost st) (selectedDate st) m;
  match r with
  | Some postToSave => Normal (handleSavePost now postToSave st)
  | None => Normal st
  end.

(** ** src/services/geminiService.ts *)

Record InlineData : Type := {
  mimeType : JSString;
  data : option JSString
}.

Inductive Part : Type :=
  | InlinePart (inlineData : InlineData)
  | TextPart (t : JSString).

Record GenerateContentRequest : Type := {
  model : JSString;
  parts : list Part
}.

Record GenerateContentResponse : Type := {
  response_text : JSString
}.

(** [s.split(',')]: the pieces between commas; never empty. *)
Fixpoint split_comma (s : JSString) : list JSString :=
  match s with
  | [] => [[]]
  | c :: s' =>
      if (c =? 44)%N then [] :: split_comma s'
      else match split_comma s' with
           | piece :: rest => (c :: piece) :: rest
           | [] => [[c]]
           end
  end.

(** The lazy group of [/:(.*?);/] tried right after a colon: the code units
    up to the first semicolon, unless a line terminator comes first. *)
Fixpoint lazy_group (s : JSString) : option JSString :=
  match s with
  | [] => None
  | c :: s' =>
      if (c =? 59)%N then Some []
      else if isLineTerminator c then None
      else cons c <$> lazy_group s'
  end.

(** [metadata.match(/:(.*?);/)?.[1]]: group 1 of the leftmost match. *)
Fixpoint match_mime (s : JSString) : option JSString :=
  match s with
  | [] => None
  | c :: s' =>
      if (c =? 58)%N then
        match lazy_group s' with
        | Some g => Some g
        | None => match_mime s'
        end
      else match_mime s'
  end.

Definition base64ToInlineData (base64String : JSString) : InlineData :=
  let pieces := split_comma base64String in
  let metadata := nth 0 pieces [] in
  let data := pieces !! 1%nat in
  let mimeType :=
    match match_mime metadata with
    | Some g => if truthy_string g then g else str "image/jpeg"
    | None => str "image/jpeg"
    end in
  {| mimeType := mimeType; data := data |}.

Definition prompt : JSString :=
  str "Write a captivating Instagram caption for these images. Include relevant hashtags. The caption should be engaging and encourage interaction.".

Definition msg_no_key : JSString :=
  str "API Key not configured. Please set the API_KEY environment variable.".

Definition msg_failed : JSString :=
  str "Sorry, I couldn't generate a caption right now. Please try again later.".

(** The argument of [ai.models.generateContent]. *)
Definition captionRequest (images : list JSString) : GenerateContentRequest :=
  let imageParts := List.map (fun i => InlinePart (base64ToInlineData i)) images in
  {| model := str "gemini-2.5-flash";
     parts := imageParts ++ [TextPart prompt] |}.

Section GeminiService.

(** [process.env.API_KEY]. *)
Variable API_KEY : option JSString.

(** The awaited [ai.models.generateContent] call: the response, or what it
    threw (network, quota, authentication, ...). *)
Variable generateContent : GenerateContentRequest -> Completion GenerateContentResponse.

Definition suggestCaption (images : list JSString) : Completion JSString :=
  if negb (from_option truthy_string false API_KEY) then Normal msg_no_key
  else
    try_catch
      (response ← generateContent (captionRequest images);
       Normal (response_text response))
      (fun error => Normal msg_failed).

End GeminiService.

(** * Notions used by the statements *)

(** ** The Gregorian calendar *)

Definition isLeapYear (y : Z) : bool :=
  (y mod 4 =? 0) && (negb (y mod 100 =? 0) || (y mod 400 =? 0)).

(** The number of days of month [m] (0 = January .. 11 = December) of year
    [y]. *)
Definition DaysInMonth (y m : Z) : Z :=
  match m with
  | 0 => 31
  | 1 => if isLeapYear y then 29 else 28
  | 2 => 31
  | 3 => 30
  | 4 => 31
  | 5 => 30
  | 6 => 31
  | 7 => 31
  | 8 => 30
  | 9 => 31
  | 10 => 30
  | _ => 31
  end.

Definition leapDays (y : Z) : Z := if Ecma.DaysInYear y =? 366 then 1 else 0.

(** The local time value of midnight on the civil date [y]-[mn]-[dt]. *)
Definition civil (y mn dt : Z) : Z := Ecma.MakeDate (Ecma.MakeDay y mn dt) 0.

(** Years that the [Date] constructor takes literally (it reads 0..99 as
    1900..1999) and every month of which, with the month on either side,
    lies inside the range of time values. *)
Definition plain_year (y : Z) : Prop :=
  (-271820 <= y <= -1) \/ (100 <= y <= 275759).

(** A zone offset of at most a day either way. *)
Definition zone_offset (tza : Z) : Prop := - Ecma.msPerDay <= tza <= Ecma.msPerDay.

(** A zone all of whose offsets are at most a day either way. *)
Definition zone_bounded (zone : TimeZone) : Prop :=
  forall t isUTC, zone_offset (LocalTZA zone t isUTC).

(** The zone keeps the local midnights of month [M] of year [Y]: none of
    them is skipped by a transition, so each one, taken to UTC and back, is
    itself, and each one is an earlier instant than the midnight after it. *)
Definition midnights_kept (zone : TimeZone) (Y M : Z) : Prop :=
  forall D, 1 <= D <= DaysInMonth Y M ->
    LocalTime zone (UTC zone (civil Y M D)) = civil Y M D
    /\ UTC zone (civil Y M D) < UTC zone (civil Y M (D + 1)).

(** The instant [now] falls on the local civil date [Y]-[M]-[D]. *)
Definition on_date (zone : TimeZone) (now : Z) (Y M D : Z) : Prop :=
  getFullYear zone (Some now) = Some Y
  /\ getMonth zone (Some now) = Some M
  /\ getDate zone (Some now) = Some D.

(** [n] consecutive days from the time value [a]. *)
Definition days_from (a : Z) (n : nat) : list Date :=
  List.map (fun i => Some (a + Z.of_nat i * Ecma.msPerDay)) (seq 0 n).

(** The instants of [n] consecutive local midnights, from that of the civil
    date [y]-[mn]-[dt]. *)
Definition midnights (zone : TimeZone) (y mn dt : Z) (n : nat) : list Date :=
  List.map (fun i => Some (UTC zone (civil y mn (dt + Z.of_nat i)))) (seq 0 n).

(** The posts of [l] whose date key is [k], in the order of [l]. *)
Definition on_key (zone : TimeZone) (k : JSString) (l : list Post) : list Post :=
  List.filter (fun p => bool_decide (toDateString zone (date p) = k)) l.

(** ** Reading renderings back (used in proofs only) *)

Definition isDigit (c : CodeUnit) : bool := ((48 <=? c) && (c <=? 57))%N.

Fixpoint units_uint (s : JSString) : Decimal.uint :=
  match s with
  | [] => Decimal.Nil
  | c :: s' =>
      let d := units_uint s' in
      match c with
      | 48%N => Decimal.D0 d
      | 49%N => Decimal.D1 d
      | 50%N => Decimal.D2 d
      | 51%N => Decimal.D3 d
      | 52%N => Decimal.D4 d
      | 53%N => Decimal.D5 d
      | 54%N => Decimal.D6 d
      | 55%N => Decimal.D7 d
      | 56%N => Decimal.D8 d
      | _ => Decimal.D9 d
      end
  end.

(** The year field of [toISOString] and of [DateString]. *)
Definition isoYear (yv : Z) : JSString :=
  if (0 <=? yv) && (yv <=? 9999) then ToZeroPaddedDecimalString yv 4
  else (if 0 <=? yv then str "+" else str "-")
         ++ ToZeroPaddedDecimalString (Z.abs yv) 6.

Definition dateYear (yv : Z) : JSString :=
  (if 0 <=? yv then [] else str "-") ++ ToZeroPaddedDecimalString (Z.abs yv) 4.

(** ** The properties under study, as the specification words them *)

(** Saving an input without id: one more entry, with an id no stored post
    has. *)
Definition save_new_is_fresh (now : Z) (postToSave : PostInput) (st : AppState) : Prop :=
  exists newPost,
    posts (handleSavePost now postToSave st) = posts st ++ [newPost]
    /\ length (posts (handleSavePost now postToSave st)) = S (length (posts st))
    /\ forall p, In p (posts st) -> post_id p <> post_id newPost.

(** Saving an input that carries the id of the stored post [P]: as many
    entries as before, the entries with that id carry the supplied fields,
    the others are as they were. *)
Definition save_replaces (now : Z) (postToSave : PostInput) (P : Post) (st : AppState)
  : Prop :=
  let st' := handleSavePost now postToSave st in
  length (posts st') = length (posts st)
  /\ forall i q, posts st !! i = Some q ->
       (post_id q = post_id P ->
        exists q', posts st' !! i = Some q'
          /\ post_id q' = post_id P
          /\ date q' = input_date postToSave
          /\ images q' = input_images postToSave
          /\ caption q' = input_caption postToSave
          /\ status q' = input_status postToSave
          /\ comments q' = input_comments postToSave)
       /\ (post_id q <> post_id P -> posts st' !! i = Some q).

(** The grid of month [M] (0..11) of year [Y]: one cell per day of the
    month, in order, and as many leading empty cells as the weekday index
    of day 1. *)
Definition month_grid (zone : TimeZone) (Y M : Z) (grid : CalendarGrid) : Prop :=
  Z.of_nat (length (dayCells grid)) = DaysInMonth Y M
  /\ Z.of_nat (length (emptyCells grid)) = Ecma.WeekDay (civil Y M 1)
  /\ forall i cell, dayCells grid !! i = Some cell ->
       getFullYear zone (cell_date cell) = Some Y
       /\ getMonth zone (cell_date cell) = Some M
       /\ getDate zone (cell_date cell) = Some (Z.of_nat i + 1).


(** ** Sample data *)

(** 2024-03-10T00:00:00.123Z. *)
Definition march10 : Z := 1710028800123.

(** 0050-01-15T00:00:00.000Z. *)
Definition jan15_year50 : Z := -60588086400000.

(** +275760-09-01T00:00:00.000Z, in the last month a [Date] can hold (the
    largest time value is +275760-09-13T00:00:00.000Z). *)
Definition sep1_year275760 : Z := 8639998963200000.

(** 2024-03-10T12:00:00.000Z. *)
Definition march10_midday : Z := 1710072000000.

(** America/Havana around March 2024: UTC-5 until the clocks go forward at
    local midnight of 2024-03-10 (2024-03-10T05:00:00Z), UTC-4 after. *)
Definition havana_2024 : TimeZone :=
  transitionZone (-18000000) (-14400000) 1710046800000.

(** America/New_York around March 2024: UTC-5 until the clocks go forward at
    02:00 local time on 2024-03-10 (2024-03-10T07:00:00Z), UTC-4 after. *)
Definition new_york_2024 : TimeZone :=
  transitionZone (-18000000) (-14400000) 1710054000000.

Definition draftInput (i : option JSString) : PostInput :=
  {| input_id := i; input_date := Some march10; input_images := [];
     input_caption := []; input_status := Draft; input_comments := [] |}.

Definition storeOf (d : Date) (l : list Post) : AppState :=
  {| currentDate := d; posts := l;
     isModalOpen := false; selectedPost := None; selectedDate := None |}.

Definition emptyStore : AppState := storeOf (Some march10) [].

Definition postWithId (i : JSString) : Post :=
  {| post_id := i; date := Some march10; images := []; caption := str "old";
     status := Approved; comments := [] |}.

Definition emptyModal : ModalState :=
  {| m_images := []; m_caption := []; m_status := Draft; m_comments := [];
     newComment := []; isGeneratingCaption := false |}.

Definition modalWithText (s : JSString) : ModalState :=
  {| m_images := []; m_caption := []; m_status := Draft; m_comments := [];
     newComment := s; isGeneratingCaption := false |}.

(** * The rest of the components *)

(** ** The [ImageCarousel] component *)

Module ImageCarousel.

(** [images[i]] for an integer [i]: undefined below 0 and from the length
    on. *)
Definition at_index (images : list JSString) (i : Z) : option JSString :=
  if i <? 0 then None else images !! Z.to_nat i.

Definition goToPrevious (images : list JSString) (currentIndex : Z) : Z :=
  let isFirstImage := currentIndex =? 0 in
  if isFirstImage then Z.of_nat (length images) - 1 else currentIndex - 1.

Definition goToNext (images : list JSString) (currentIndex : Z) : Z :=
  let isLastImage := currentIndex =? Z.of_nat (length images) - 1 in
  if isLastImage then 0 else currentIndex + 1.

(** What the component renders: the placeholder, or the current image (its
    [src], the number in its [alt] text) and, for more than one image, the
    two buttons with one dot per image ([true] for the highlighted one). *)
Inductive View : Type :=
  | Placeholder
  | Slide (src : option JSString) (number : Z) (dots : option (list bool)).

Definition render (images : list JSString) (currentIndex : Z) : View :=
  if (length images =? 0)%nat then Placeholder
  else
    Slide (at_index images currentIndex) (currentIndex + 1)
          (if (1 <? length images)%nat
           then Some (imap (fun index _ => currentIndex =? Z.of_nat index) images)
           else None).

(** The two buttons. *)
Inductive Press : Type :=
  | Previous
  | Next.

Definition press (images : list JSString) (currentIndex : Z) (p : Press) : Z :=
  match p with
  | Previous => goToPrevious images currentIndex
  | Next => goToNext images currentIndex
  end.

(** The index after a sequence of presses, from the initial state 0. *)
Definition presses (images : list JSString) (ps : list Press) : Z :=
  foldl (press images) 0 ps.

End ImageCarousel.

(** ** The [PostModal] component, continued *)

Definition setImages (f : list JSString -> list JSString) (m : ModalState) : ModalState :=
  {| m_images := f (m_images m); m_caption := m_caption m; m_status := m_status m;
     m_comments := m_comments m; newComment := newComment m;
     isGeneratingCaption := isGeneratingCaption m |}.

Definition setCaption (c : JSString) (m : ModalState) : ModalState :=
  {| m_images := m_images m; m_caption := c; m_status := m_status m;
     m_comments := m_comments m; newComment := newComment m;
     isGeneratingCaption := isGeneratingCaption m |}.

Definition setIsGeneratingCaption (b : bool) (m : ModalState) : ModalState :=
  {| m_images := m_images m; m_caption := m_caption m; m_status := m_status m;
     m_comments := m_comments m; newComment := newComment m;
     isGeneratingCaption := b |}.

(** [handleDelete].  [confirm] is the answer of [window.confirm], which is
    asked only when there is a post.  The result is the argument [onDelete]
    was called with, if it was called. *)
Definition handleDelete (post : option Post) (confirm : bool) : option JSString :=
  match post with
  | Some p => if confirm then Some (post_id p) else None
  | None => None
  end.

(** The Delete button as wired in [App]. *)
Definition clickDelete (confirm : bool) (st : AppState) : AppState :=
  match handleDelete (selectedPost st) confirm with
  | Some postId => handleDeletePost postId st
  | None => st
  end.

Definition msg_no_image : JSString :=
  str "Please upload at least one image to generate a caption.".

(** [handleGenerateCaption].  The images are those of the render in which
    the button was pressed; [meanwhile] is what the user does to the buffer
    while the request is pending, and the two state updates after the
    [await] apply to the buffer as it is then.  The result is the text of
    the [alert], if any, and the buffer at the end. *)
Definition handleGenerateCaption (API_KEY : option JSString)
    (generateContent : GenerateContentRequest -> Completion GenerateContentResponse)
    (meanwhile : ModalState -> ModalState) (m : ModalState)
  : Completion (option JSString * ModalState) :=
  if (length (m_images m) =? 0)%nat then Normal (Some msg_no_image, m)
  else
    let m1 := setIsGeneratingCaption true m in
    generatedCaption ← suggestCaption API_KEY generateContent (m_images m);
    let m2 := setCaption generatedCaption (meanwhile m1) in
    Normal (None, setIsGeneratingCaption false m2).

(** [handleImageUpload].  The two locals shared by the [onloadend]
    callbacks of one upload. *)
Record Upload : Type := {
  newImages : list JSString;
  filesProcessed : nat
}.

(** One [onloadend] callback: [count] is [files.length], [result] is
    [reader.result] when it is a string. *)
Definition onloadend (count : nat) (s : Upload * ModalState) (result : option JSString)
  : Upload * ModalState :=
  let (u, m) := s in
  let newImages' :=
    match result with
    | Some r => newImages u ++ [r]
    | None => newImages u
    end in
  let filesProcessed' := S (filesProcessed u) in
  let m' :=
    if (filesProcessed' =? count)%nat
    then setImages (fun prevImages => prevImages ++ newImages') m
    else m in
  ({| newImages := newImages'; filesProcessed := filesProcessed' |}, m').

(** [handleImageUpload] followed by the callbacks that have fired so far:
    [files] is [e.target.files] (null, or [count] files) and [results] lists
    the read results in the order in which the reads completed. *)
Definition handleImageUpload (files : option nat) (results : list (option JSString))
    (m : ModalState) : ModalState :=
  match files with
  | Some count =>
      snd (foldl (onloadend count) ({| newImages := []; filesProcessed := 0 |}, m) results)
  | None => m
  end.

(** ** [App], continued *)

(** The initial state; the arguments are the clock readings of the five
    [new Date()] calls of the first render. *)
Definition initialState (zone : TimeZone) (t0 t1 t2 t3 t4 : Z) : AppState :=
  {| currentDate := Some t0;
     posts :=
       [ {| post_id := str "1";
            date := setDate zone (Some t1) (Some 10);
            images := [str "https://picsum.photos/id/1018/1080/1080";
                       str "https://picsum.photos/id/1015/1080/1080"];
            caption := str "Exploring the serene beauty of the mountains. #Nature #Adventure #Travel";
            status := Approved;
            comments :=
              [ {| comment_id := str "c1"; author := Reviewer;
                   text := str "Looks great! Approved."; timestamp := Some t2 |} ] |};
         {| post_id := str "2";
            date := setDate zone (Some t3) (Some 22);
            images := [str "https://picsum.photos/id/1025/1080/1080"];
            caption := str "A happy pup enjoying the day! " ++ [55357%N; 56374%N];
            status := NeedsRevision;
            comments :=
              [ {| comment_id := str "c2"; author := Reviewer;
                   text := str "Can we try a different caption? Something more engaging.";
                   timestamp := Some t4 |} ] |} ];
     isModalOpen := false;
     selectedPost := None;
     selectedDate := None |}.

(** What the user can do, as the JSX wires it: the callbacks [Calendar] and
    [PostCard] call, the header buttons, and the buttons of the modal. *)
Inductive Event : Type :=
  | ClickDay (d : Date)
  | ClickPost (post : Post)
  | ClickClose
  | ClickSave (now : Z) (m : ModalState)
  | ClickDelete (confirm : bool)
  | ClickPrevious
  | ClickNext
  | ClickToday (now : Z).

(** A post card exists only for a stored post, and the modal with its
    buttons only while [isModalOpen]. *)
Definition enabled (st : AppState) (e : Event) : Prop :=
  match e with
  | ClickPost post => In post (posts st)
  | ClickClose | ClickSave _ _ | ClickDelete _ => isModalOpen st = true
  | _ => True
  end.

Definition handle (zone : TimeZone) (st : AppState) (e : Event) : AppState :=
  match e with
  | ClickDay d => handleSelectDate d st
  | ClickPost post => handleSelectPost post st
  | ClickClose => handleCloseModal st
  | ClickSave now m =>
      match clickSave now m st with
      | Normal st' => st'
      | Throw _ => st
      end
  | ClickDelete confirm => clickDelete confirm st
  | ClickPrevious => goToPreviousMonth zone st
  | ClickNext => goToNextMonth zone st
  | ClickToday now => goToToday now st
  end.

(** The states the application can be in. *)
Inductive reachable (zone : TimeZone) : AppState -> Prop :=
  | reachable_initial t0 t1 t2 t3 t4 :
      reachable zone (initialState zone t0 t1 t2 t3 t4)
  | reachable_handle st e :
      reachable zone st -> enabled st e ->
      reachable zone (handle zone st e).

(** ** Notions used by the further statements *)

(** Every stored id is a non-empty string and no two posts share one. *)
Definition ids_nonempty (l : list Post) : Prop :=
  forall p, In p l -> post_id p <> [].

Definition ids_distinct (l : list Post) : Prop :=
  List.NoDup (List.map post_id l).

(** The modal is open on exactly one of a post and a day, and closed on
    neither; an edited post is a stored one. *)
Definition modal_consistent (st : AppState) : Prop :=
  (isModalOpen st = true ->
     (exists p, selectedPost st = Some p /\ selectedDate st = None /\ In p (posts st))
     \/ (exists d, selectedPost st = None /\ selectedDate st = Some d))
  /\ (isModalOpen st = false -> selectedPost st = None /\ selectedDate st = None).

(** The post [p] is dated on the local civil date [Y]-[M]-[D]. *)
Definition dated_on (zone : TimeZone) (Y M D : Z) (p : Post) : Prop :=
  getFullYear zone (date p) = Some Y
  /\ getMonth zone (date p) = Some M
  /\ getDate zone (date p) = Some D.

#[global] Instance dated_on_dec zone Y M D p : Decision (dated_on zone Y M D p).
Proof. unfold dated_on. apply _. Defined.

(** A data URL: the media type [mime], the marker, the payload. *)
Definition dataURL (mime payload : JSString) : JSString :=
  str "data:" ++ mime ++ str ";base64," ++ payload.

Definition free_of (c : CodeUnit) (s : JSString) : Prop :=
  forall x, In x s -> x <> c.

Definition carouselImages : list JSString := [str "a"; str "b"; str "c"].

(** * The embedding on known values *)

Example epoch_toISOString : toISOString 0 = str "1970-01-01T00:00:00.000Z".
Proof. reflexivity. Qed.

Example epoch_toDateString : toDateString (fixedZone 0) (Some 0) = str "Thu Jan 01 1970".
Proof. reflexivity. Qed.

Example epoch_east_of_Greenwich :
  toDateString (fixedZone 19800000) (Some (-1)) = str "Thu Jan 01 1970".
Proof. reflexivity. Qed.

Example epoch_west_of_Greenwich :
  toDateString (fixedZone (-18000000)) (Some 0) = str "Wed Dec 31 1969".
Proof. reflexivity. Qed.

Example largest_time_value :
  toISOString 8640000000000000 = str "+275760-09-13T00:00:00.000Z"
  /\ Ecma.TimeClip 8640000000000001 = None.
Proof. split; reflexivity. Qed.

Example year_before_zero :
  toISOString (-62198755200000) = str "-000001-01-01T00:00:00.000Z"
  /\ toDateString (fixedZone 0) (Some (-62198755200000)) = str "Fri Jan 01 -0001".
Proof. split; reflexivity. Qed.

Example march_2024_first_and_last :
  toDateString (fixedZone 0) (newDate (fixedZone 0) (Some 2024) (Some 2) (Some 1))
  = str "Fri Mar 01 2024"
  /\ toDateString (fixedZone 0) (newDate (fixedZone 0) (Some 2024) (Some 3) (Some 0))
     = str "Sun Mar 31 2024".
Proof. split; reflexivity. Qed.

Example two_digit_year :
  toDateString (fixedZone 0) (newDate (fixedZone 0) (Some 99) (Some 11) (Some 1))
  = str "Wed Dec 01 1999".
Proof. reflexivity. Qed.

Example invalid_date :
  newDate (fixedZone 0) None (Some 0) (Some 1) = None
  /\ toDateString (fixedZone 0) None = str "Invalid Date"
  /\ date_le None (Some 0) = false.
Proof. repeat split. Qed.

Example trim_some : trim (str "  a b  ") = str "a b".
Proof. reflexivity. Qed.

Example base64ToInlineData_png :
  base64ToInlineData (str "data:image/png;base64,AAAA")
  = {| mimeType := str "image/png"; data := Some (str "AAAA") |}.
Proof. reflexivity. Qed.

Example base64ToInlineData_bare :
  base64ToInlineData (str "AAAA") = {| mimeType := str "image/jpeg"; data := None |}.
Proof. reflexivity. Qed.

(** * Facts about time values *)

Ltac zdiv := Z.to_euclidean_division_equations; lia.

Ltac month_cases mn :=
  let Hc := fresh "Hc" in
  assert (Hc : mn = 0 \/ mn = 1 \/ mn = 2 \/ mn = 3 \/ mn = 4 \/ mn = 5
    \/ mn = 6 \/ mn = 7 \/ mn = 8 \/ mn = 9 \/ mn = 10 \/ mn = 11) by lia;
  repeat (destruct Hc as [-> | Hc]); try subst mn.

Module EcmaFacts.
Import Ecma.

Lemma DaysInYear_cases y : DaysInYear y = 365 \/ DaysInYear y = 366.
Proof.
  unfold DaysInYear.
  repeat match goal with |- context [negb ?b] => destruct b; simpl end; auto.
Qed.

Lemma DaysInYear_leap y : DaysInYear y = if isLeapYear y then 366 else 365.
Proof.
  unfold DaysInYear, isLeapYear.
  destruct (Z.eqb_spec (y mod 4) 0), (Z.eqb_spec (y mod 100) 0),
    (Z.eqb_spec (y mod 400) 0); simpl; try reflexivity; zdiv.
Qed.

Lemma leapDays_leap y : leapDays y = if isLeapYear y then 1 else 0.
Proof. unfold leapDays. rewrite DaysInYear_leap. by destruct (isLeapYear y). Qed.

Lemma DayFromYear_succ y : DayFromYear (y + 1) = DayFromYear y + DaysInYear y.
Proof.
  unfold DayFromYear, DaysInYear.
  destruct (Z.eqb_spec (y mod 4) 0), (Z.eqb_spec (y mod 100) 0),
    (Z.eqb_spec (y mod 400) 0); simpl; zdiv.
Qed.

Lemma DayFromYear_lt y : DayFromYear y < DayFromYear (y + 1).
Proof. rewrite DayFromYear_succ. destruct (DaysInYear_cases y); lia. Qed.

Lemma DayFromYear_mono y1 y2 : y1 <= y2 -> DayFromYear y1 <= DayFromYear y2.
Proof. unfold DayFromYear. intros. zdiv. Qed.

Lemma YearFromTime_bounds t :
  DayFromYear (YearFromTime t) <= Day t < DayFromYear (YearFromTime t + 1).
Proof.
  unfold YearFromTime. cbv zeta. generalize (Day t). intros d.
  destruct (Z.ltb_spec d (DayFromYear (1970 + d * 400 / 146097))).
  - unfold DayFromYear in *. zdiv.
  - destruct (Z.leb_spec (DayFromYear (1970 + d * 400 / 146097 + 1)) d).
    + unfold DayFromYear in *. zdiv.
    + lia.
Qed.

Lemma YearFromTime_unique t y :
  DayFromYear y <= Day t < DayFromYear (y + 1) -> YearFromTime t = y.
Proof.
  intros Hy. pose proof (YearFromTime_bounds t) as Ht.
  destruct (Z.lt_trichotomy (YearFromTime t) y) as [Hlt | [Heq | Hgt]]; [|done|].
  - pose proof (DayFromYear_mono (YearFromTime t + 1) y ltac:(lia)). lia.
  - pose proof (DayFromYear_mono (y + 1) (YearFromTime t) ltac:(lia)). lia.
Qed.

(** [YearFromTime t] is the largest [y] with [TimeFromYear y <= t], which
    is how ECMA-262 defines it. *)
Lemma YearFromTime_largest t :
  TimeFromYear (YearFromTime t) <= t
  /\ forall y, TimeFromYear y <= t -> y <= YearFromTime t.
Proof.
  pose proof (YearFromTime_bounds t) as [Hlo Hhi]. unfold TimeFromYear, Day, msPerDay in *.
  split; [zdiv|]. intros y Hy.
  destruct (Z.le_gt_cases y (YearFromTime t)) as [|Hgt]; [done|].
  pose proof (DayFromYear_mono (YearFromTime t + 1) y ltac:(lia)). zdiv.
Qed.

Lemma InLeapYear_leapDays t : InLeapYear t = leapDays (YearFromTime t).
Proof. reflexivity. Qed.

Lemma DayWithinYear_range t :
  0 <= DayWithinYear t < DaysInYear (YearFromTime t).
Proof.
  unfold DayWithinYear. pose proof (YearFromTime_bounds t).
  rewrite DayFromYear_succ in *. lia.
Qed.

Lemma MonthFromTime_range t : 0 <= MonthFromTime t <= 11.
Proof.
  unfold MonthFromTime. cbv zeta.
  repeat match goal with |- context [if ?b then _ else _] => destruct b end; lia.
Qed.

Lemma leapDays_cases y :
  (leapDays y = 0 /\ DaysInYear y = 365) \/ (leapDays y = 1 /\ DaysInYear y = 366).
Proof.
  unfold leapDays. destruct (DaysInYear_cases y) as [-> | ->]; simpl; auto.
Qed.

(** The day number of a time value is rebuilt by [MakeDay] from its year,
    month and date. *)
Lemma MakeDay_fields t :
  MakeDay (YearFromTime t) (MonthFromTime t) (DateFromTime t) = Day t.
Proof.
  pose proof (MonthFromTime_range t) as Hm.
  unfold MakeDay. cbv zeta.
  replace (MonthFromTime t / 12) with 0 by zdiv.
  replace (MonthFromTime t mod 12) with (MonthFromTime t) by zdiv.
  rewrite Z.add_0_r. fold (leapDays (YearFromTime t)).
  unfold DateFromTime. cbv zeta. rewrite InLeapYear_leapDays.
  unfold DayWithinYear.
  assert (Hc : MonthFromTime t = 0 \/ MonthFromTime t = 1 \/ MonthFromTime t = 2
    \/ MonthFromTime t = 3 \/ MonthFromTime t = 4 \/ MonthFromTime t = 5
    \/ MonthFromTime t = 6 \/ MonthFromTime t = 7 \/ MonthFromTime t = 8
    \/ MonthFromTime t = 9 \/ MonthFromTime t = 10 \/ MonthFromTime t = 11) by lia.
  repeat (destruct Hc as [-> | Hc]); [..| rewrite Hc]; simpl; lia.
Qed.

Lemma leap_cases y :
  (isLeapYear y = false /\ leapDays y = 0 /\ DaysInYear y = 365)
  \/ (isLeapYear y = true /\ leapDays y = 1 /\ DaysInYear y = 366).
Proof.
  rewrite leapDays_leap, DaysInYear_leap. destruct (isLeapYear y); auto.
Qed.

Lemma DateFromTime_range t :
  1 <= DateFromTime t <= DaysInMonth (YearFromTime t) (MonthFromTime t).
Proof.
  pose proof (DayWithinYear_range t) as Hd.
  unfold DateFromTime, MonthFromTime, DaysInMonth. cbv zeta.
  rewrite InLeapYear_leapDays.
  destruct (leap_cases (YearFromTime t)) as [(-> & -> & Hy) | (-> & -> & Hy)];
    rewrite Hy in Hd;
    repeat match goal with
           | |- context [if ?a <? ?b then _ else _] => destruct (Z.ltb_spec a b)
           end; simpl; lia.
Qed.

(** Conversely the fields of the time value built from a calendar date are
    that date. *)
Lemma fields_MakeDay y mn dt tm :
  0 <= mn <= 11 -> 1 <= dt <= DaysInMonth y mn -> 0 <= tm < msPerDay ->
  let t := MakeDate (MakeDay y mn dt) tm in
  Day t = MakeDay y mn dt /\
  YearFromTime t = y /\ MonthFromTime t = mn /\ DateFromTime t = dt.
Proof.
  intros Hmn Hdt Htm t.
  assert (HD : Day t = MakeDay y mn dt).
  { unfold t, MakeDate, Day, msPerDay in *. zdiv. }
  assert (Hdw : MakeDay y mn dt = DayFromYear y + DaysBeforeMonth mn (leapDays y) + dt - 1).
  { unfold MakeDay. cbv zeta. replace (mn / 12) with 0 by zdiv.
    replace (mn mod 12) with mn by zdiv. rewrite Z.add_0_r. reflexivity. }
  assert (Hc : mn = 0 \/ mn = 1 \/ mn = 2 \/ mn = 3 \/ mn = 4 \/ mn = 5
    \/ mn = 6 \/ mn = 7 \/ mn = 8 \/ mn = 9 \/ mn = 10 \/ mn = 11) by lia.
  assert (HY : YearFromTime t = y).
  { apply YearFromTime_unique. rewrite HD, Hdw, DayFromYear_succ.
    unfold DaysInMonth in Hdt.
    destruct (leap_cases y) as [(Hl & -> & ->) | (Hl & -> & ->)]; rewrite Hl in Hdt;
      repeat (destruct Hc as [-> | Hc]); try subst mn; simpl in *; lia. }
  split; [done|]. split; [done|].
  assert (HW : DayWithinYear t = DaysBeforeMonth mn (leapDays y) + dt - 1).
  { unfold DayWithinYear. rewrite HY, HD, Hdw. lia. }
  unfold DateFromTime, MonthFromTime. cbv zeta.
  rewrite InLeapYear_leapDays, HY, HW. unfold DaysInMonth in Hdt.
  destruct (leap_cases y) as [(Hl & -> & _) | (Hl & -> & _)]; rewrite Hl in Hdt;
    repeat (destruct Hc as [-> | Hc]); try subst mn; simpl in *;
    repeat match goal with
           | |- context [if ?a <? ?b then _ else _] => destruct (Z.ltb_spec a b)
           end; simpl; lia.
Qed.

End EcmaFacts.

Import Ecma EcmaFacts.

(** * Rendering of numbers *)

Lemma units_uint_units d : units_uint (uint_units d) = d.
Proof. induction d; simpl; congruence. Qed.

Lemma uint_units_digits d : forallb isDigit (uint_units d) = true.
Proof. induction d; simpl; auto. Qed.

Lemma of_uint_zeros k d :
  N.of_uint (units_uint (repeat 48%N k ++ uint_units d)) = N.of_uint d.
Proof.
  induction k as [|k IH]; simpl.
  - by rewrite units_uint_units.
  - exact IH.
Qed.

Lemma padded_digits n k : forallb isDigit (ToZeroPaddedDecimalString n k) = true.
Proof.
  unfold ToZeroPaddedDecimalString. rewrite forallb_app, uint_units_digits, andb_true_r.
  induction (k - _)%nat; simpl; auto.
Qed.

Lemma padded_nonempty n k : ToZeroPaddedDecimalString n k <> [].
Proof.
  unfold ToZeroPaddedDecimalString. intros H. apply app_eq_nil in H as [_ H].
  destruct (Z.to_N n) as [|p]; [discriminate|].
  simpl in H. pose proof (DecimalPos.Unsigned.to_uint_nonnil p) as Hp.
  destruct (Pos.to_uint p); try discriminate. by apply Hp.
Qed.

Lemma padded_inj n1 n2 k1 k2 :
  0 <= n1 -> 0 <= n2 ->
  ToZeroPaddedDecimalString n1 k1 = ToZeroPaddedDecimalString n2 k2 -> n1 = n2.
Proof.
  intros H1 H2 H. apply (f_equal (fun s => N.of_uint (units_uint s))) in H.
  unfold ToZeroPaddedDecimalString in H.
  rewrite !of_uint_zeros, !DecimalN.Unsigned.of_to in H. lia.
Qed.

(** Two strings that start with digit runs closed by the same non-digit
    agree run by run. *)
Lemma digits_sep_inj (a1 a2 r1 r2 : list N) (sep : N) :
  forallb isDigit a1 = true -> forallb isDigit a2 = true -> isDigit sep = false ->
  a1 ++ sep :: r1 = a2 ++ sep :: r2 -> a1 = a2 /\ r1 = r2.
Proof.
  revert a2. induction a1 as [|c a1 IH]; intros [|c2 a2]; simpl; intros H1 H2 Hs H.
  - by inversion H.
  - inversion H; subst. apply andb_prop in H2 as [H2 _]. congruence.
  - inversion H; subst. apply andb_prop in H1 as [H1 _]. congruence.
  - apply andb_prop in H1 as [_ H1]. apply andb_prop in H2 as [_ H2].
    inversion H; subst. destruct (IH a2 H1 H2 Hs) as [-> ->]; auto.
Qed.

Lemma padded_sep_inj n1 n2 k1 k2 sep r1 r2 :
  0 <= n1 -> 0 <= n2 -> isDigit sep = false ->
  ToZeroPaddedDecimalString n1 k1 ++ sep :: r1
  = ToZeroPaddedDecimalString n2 k2 ++ sep :: r2 ->
  n1 = n2 /\ r1 = r2.
Proof.
  intros H1 H2 Hs H.
  apply digits_sep_inj in H as [H ->]; auto using padded_digits.
  split; [|done]. eapply padded_inj; eauto.
Qed.

Lemma padded_head n k :
  exists c s, ToZeroPaddedDecimalString n k = c :: s /\ isDigit c = true.
Proof.
  pose proof (padded_nonempty n k) as Hne. pose proof (padded_digits n k) as Hd.
  destruct (ToZeroPaddedDecimalString n k) as [|c s]; [done|].
  exists c, s. simpl in Hd. apply andb_prop in Hd as [Hd _]. auto.
Qed.

(** * The two date renderings determine what they render *)

Lemma toISOString_eq tv :
  toISOString tv
  = isoYear (YearFromTime tv)
    ++ 45%N :: ToZeroPaddedDecimalString (MonthFromTime tv + 1) 2
    ++ 45%N :: ToZeroPaddedDecimalString (DateFromTime tv) 2
    ++ 84%N :: ToZeroPaddedDecimalString (HourFromTime tv) 2
    ++ 58%N :: ToZeroPaddedDecimalString (MinFromTime tv) 2
    ++ 58%N :: ToZeroPaddedDecimalString (SecFromTime tv) 2
    ++ 46%N :: ToZeroPaddedDecimalString (msFromTime tv) 3
    ++ [90%N].
Proof. reflexivity. Qed.

Lemma isoYear_sep_inj y1 y2 r1 r2 :
  isoYear y1 ++ 45%N :: r1 = isoYear y2 ++ 45%N :: r2 -> y1 = y2 /\ r1 = r2.
Proof.
  unfold isoYear. intros Heq.
  destruct (padded_head y1 4) as (c1 & s1 & E1 & Hc1).
  destruct (padded_head y2 4) as (c2 & s2 & E2 & Hc2).
  destruct (Z.leb_spec 0 y1) as [Hs1|Hs1], (Z.leb_spec 0 y2) as [Hs2|Hs2],
    (Z.leb_spec y1 9999) as [Hb1|Hb1], (Z.leb_spec y2 9999) as [Hb2|Hb2];
    simpl in Heq;
    try (apply padded_sep_inj in Heq as [? ?]; [split; [lia|done]|lia..|done]);
    try (injection Heq as Heq;
         apply padded_sep_inj in Heq as [? ?]; [split; [lia|done]|lia..|done]);
    try lia;
    rewrite ?E1, ?E2 in Heq; simpl in Heq; injection Heq as Heq _; subst;
    discriminate.
Qed.

Lemma time_fields t :
  t = msPerDay * Day t
      + MakeTime (HourFromTime t) (MinFromTime t) (SecFromTime t) (msFromTime t).
Proof.
  unfold MakeTime, HourFromTime, MinFromTime, SecFromTime, msFromTime, Day,
    msPerDay, msPerHour, msPerMinute, msPerSecond, HoursPerDay, MinutesPerHour,
    SecondsPerMinute.
  Z.to_euclidean_division_equations; lia.
Qed.

Lemma time_fields_range t :
  0 <= HourFromTime t /\ 0 <= MinFromTime t /\ 0 <= SecFromTime t /\ 0 <= msFromTime t.
Proof.
  unfold HourFromTime, MinFromTime, SecFromTime, msFromTime,
    msPerHour, msPerMinute, msPerSecond, HoursPerDay, MinutesPerHour,
    SecondsPerMinute.
  Z.to_euclidean_division_equations; lia.
Qed.

(** [toISOString] is injective: two instants with the same rendering are
    the same millisecond. *)
Lemma toISOString_inj t1 t2 : toISOString t1 = toISOString t2 -> t1 = t2.
Proof.
  rewrite !toISOString_eq. intros H.
  pose proof (MonthFromTime_range t1). pose proof (MonthFromTime_range t2).
  pose proof (DateFromTime_range t1). pose proof (DateFromTime_range t2).
  pose proof (time_fields_range t1) as (? & ? & ? & ?).
  pose proof (time_fields_range t2) as (? & ? & ? & ?).
  apply isoYear_sep_inj in H as [HY H].
  apply padded_sep_inj in H as [HM H]; [|lia..|done].
  apply padded_sep_inj in H as [HD H]; [|lia..|done].
  apply padded_sep_inj in H as [Hh H]; [|lia..|done].
  apply padded_sep_inj in H as [Hm H]; [|lia..|done].
  apply padded_sep_inj in H as [Hs H]; [|lia..|done].
  apply padded_sep_inj in H as [Hms _]; [|lia..|done].
  rewrite (time_fields t1), (time_fields t2).
  rewrite <- (MakeDay_fields t1), <- (MakeDay_fields t2).
  replace (MonthFromTime t1) with (MonthFromTime t2) by lia.
  congruence.
Qed.

Lemma WeekDay_range t : 0 <= WeekDay t <= 6.
Proof. unfold WeekDay. Z.to_euclidean_division_equations; lia. Qed.

Lemma DayName_length t : length (nth (Z.to_nat (WeekDay t)) DayNames []) = 3%nat.
Proof.
  pose proof (WeekDay_range t) as Hw.
  assert (Hc : WeekDay t = 0 \/ WeekDay t = 1 \/ WeekDay t = 2 \/ WeekDay t = 3
               \/ WeekDay t = 4 \/ WeekDay t = 5 \/ WeekDay t = 6) by lia.
  repeat (destruct Hc as [-> | Hc]); [..| rewrite Hc]; reflexivity.
Qed.

Lemma MonthName_length m :
  0 <= m <= 11 -> length (nth (Z.to_nat m) MonthNames []) = 3%nat.
Proof.
  intros Hm.
  assert (Hc : m = 0 \/ m = 1 \/ m = 2 \/ m = 3 \/ m = 4 \/ m = 5 \/ m = 6
               \/ m = 7 \/ m = 8 \/ m = 9 \/ m = 10 \/ m = 11) by lia.
  repeat (destruct Hc as [-> | Hc]); [..| rewrite Hc]; reflexivity.
Qed.

Lemma MonthName_inj m1 m2 :
  0 <= m1 <= 11 -> 0 <= m2 <= 11 ->
  nth (Z.to_nat m1) MonthNames [] = nth (Z.to_nat m2) MonthNames [] -> m1 = m2.
Proof.
  intros H1 H2.
  assert (Hc1 : m1 = 0 \/ m1 = 1 \/ m1 = 2 \/ m1 = 3 \/ m1 = 4 \/ m1 = 5 \/ m1 = 6
               \/ m1 = 7 \/ m1 = 8 \/ m1 = 9 \/ m1 = 10 \/ m1 = 11) by lia.
  assert (Hc2 : m2 = 0 \/ m2 = 1 \/ m2 = 2 \/ m2 = 3 \/ m2 = 4 \/ m2 = 5 \/ m2 = 6
               \/ m2 = 7 \/ m2 = 8 \/ m2 = 9 \/ m2 = 10 \/ m2 = 11) by lia.
  repeat (destruct Hc1 as [-> | Hc1]); try subst m1;
    repeat (destruct Hc2 as [-> | Hc2]); try subst m2;
    intros H; first [reflexivity | vm_compute in H; discriminate H].
Qed.

Lemma DateString_eq tv :
  DateString tv
  = nth (Z.to_nat (WeekDay tv)) DayNames []
    ++ 32%N :: nth (Z.to_nat (MonthFromTime tv)) MonthNames []
    ++ 32%N :: ToZeroPaddedDecimalString (DateFromTime tv) 2
    ++ 32%N :: dateYear (YearFromTime tv).
Proof. reflexivity. Qed.

Lemma dateYear_inj y1 y2 : dateYear y1 = dateYear y2 -> y1 = y2.
Proof.
  unfold dateYear. intros Heq.
  destruct (padded_head (Z.abs y1) 4) as (c1 & s1 & E1 & Hc1).
  destruct (padded_head (Z.abs y2) 4) as (c2 & s2 & E2 & Hc2).
  destruct (Z.leb_spec 0 y1) as [Hs1|Hs1], (Z.leb_spec 0 y2) as [Hs2|Hs2];
    simpl in Heq.
  - apply padded_inj in Heq; lia.
  - rewrite E1 in Heq. injection Heq as -> _. discriminate.
  - rewrite E2 in Heq. injection Heq as <- _. discriminate.
  - injection Heq as Heq. apply padded_inj in Heq; lia.
Qed.

(** The day number is a function of the time value's year, month and date,
    and each of the three is a function of the day number. *)
Lemma fields_of_Day t1 t2 :
  Day t1 = Day t2 ->
  YearFromTime t1 = YearFromTime t2 /\ MonthFromTime t1 = MonthFromTime t2
  /\ DateFromTime t1 = DateFromTime t2 /\ WeekDay t1 = WeekDay t2.
Proof.
  intros HD.
  assert (HY : YearFromTime t1 = YearFromTime t2).
  { unfold YearFromTime. by rewrite HD. }
  assert (HL : InLeapYear t1 = InLeapYear t2).
  { unfold InLeapYear. by rewrite HY. }
  assert (HW : DayWithinYear t1 = DayWithinYear t2).
  { unfold DayWithinYear. by rewrite HY, HD. }
  assert (HM : MonthFromTime t1 = MonthFromTime t2).
  { unfold MonthFromTime. by rewrite HW, HL. }
  repeat split; auto.
  - unfold DateFromTime. by rewrite HM, HW, HL.
  - unfold WeekDay. by rewrite HD.
Qed.

Lemma names_inj (w1 w2 m1 m2 r1 r2 : list N) (c : N) :
  length w1 = length w2 -> length m1 = length m2 ->
  w1 ++ c :: m1 ++ c :: r1 = w2 ++ c :: m2 ++ c :: r2 -> m1 = m2 /\ r1 = r2.
Proof.
  intros Hw Hm H. apply app_inj_1 in H as [_ H]; [|done].
  injection H as H. apply app_inj_1 in H as [-> H]; [|done].
  by injection H as ->.
Qed.

Lemma DateString_Day t1 t2 : DateString t1 = DateString t2 <-> Day t1 = Day t2.
Proof.
  split.
  - rewrite !DateString_eq. intros H.
    pose proof (MonthFromTime_range t1) as Hm1.
    pose proof (MonthFromTime_range t2) as Hm2.
    pose proof (DateFromTime_range t1). pose proof (DateFromTime_range t2).
    apply names_inj in H as [HM H];
      [|by rewrite !DayName_length|by rewrite !MonthName_length].
    apply MonthName_inj in HM; [|done..].
    apply padded_sep_inj in H as [HD H]; [|lia..|done].
    apply dateYear_inj in H.
    rewrite <- (MakeDay_fields t1), <- (MakeDay_fields t2). congruence.
  - intros HD. destruct (fields_of_Day t1 t2 HD) as (HY & HM & HDt & HW).
    unfold DateString. by rewrite HY, HM, HDt, HW.
Qed.

Lemma DateString_not_invalid t : DateString t <> str "Invalid Date".
Proof.
  rewrite DateString_eq. intros H.
  apply (f_equal (fun s => nth 3 s 0%N)) in H.
  rewrite app_nth2 in H by (rewrite DayName_length; lia).
  rewrite DayName_length in H. discriminate H.
Qed.

(** * Months *)

Lemma MakeDay_in_year y mn dt :
  0 <= mn <= 11 ->
  MakeDay y mn dt = DayFromYear y + DaysBeforeMonth mn (leapDays y) + dt - 1.
Proof.
  intros Hmn. unfold MakeDay. cbv zeta.
  replace (mn / 12) with 0 by zdiv. replace (mn mod 12) with mn by zdiv.
  by rewrite Z.add_0_r.
Qed.

Lemma MakeDay_date y m dt k : MakeDay y m (dt + k) = MakeDay y m dt + k.
Proof. unfold MakeDay. lia. Qed.

(** [new Date(y, m + 1, 0)] is the last day of month [m]. *)
Lemma MakeDay_last y mn :
  0 <= mn <= 11 -> MakeDay y (mn + 1) 0 = MakeDay y mn (DaysInMonth y mn).
Proof.
  intros Hmn. rewrite (MakeDay_in_year y mn) by done.
  destruct (Z.eq_dec mn 11) as [-> | Hne].
  - unfold MakeDay. simpl. rewrite DayFromYear_succ.
    destruct (leap_cases y) as [(_ & -> & ->) | (_ & -> & ->)]; lia.
  - rewrite MakeDay_in_year by lia. unfold DaysInMonth.
    destruct (leap_cases y) as [(-> & -> & _) | (-> & -> & _)];
      month_cases mn; simpl; lia.
Qed.

(** Month -1 is December of the year before, month 12 January of the year
    after. *)
Lemma MakeDay_before_January y dt : MakeDay y (-1) dt = MakeDay (y - 1) 11 dt.
Proof.
  unfold MakeDay. cbv zeta.
  change (-1 / 12) with (-1). change (11 / 12) with 0.
  change (-1 mod 12) with 11. change (11 mod 12) with 11.
  by rewrite Z.add_0_r.
Qed.

Lemma MakeDay_after_December y dt : MakeDay y 12 dt = MakeDay (y + 1) 0 dt.
Proof.
  unfold MakeDay. cbv zeta.
  change (12 / 12) with 1. change (0 / 12) with 0.
  change (12 mod 12) with 0. change (0 mod 12) with 0.
  rewrite ?Z.add_0_r. reflexivity.
Qed.

Lemma DaysInMonth_range y mn : 28 <= DaysInMonth y mn <= 31.
Proof.
  unfold DaysInMonth. destruct (isLeapYear y);
  repeat match goal with |- context [match ?m with _ => _ end] => destruct m end; lia.
Qed.

(** ** The representable range *)

Lemma DayFromYear_range y :
  -271821 <= y <= 275760 -> -100000109 <= DayFromYear y <= 99999744.
Proof. unfold DayFromYear. intros. zdiv. Qed.

Lemma MakeDay_range y mn dt :
  -271820 <= y <= 275759 -> -1 <= mn <= 12 -> -31 <= dt <= 63 ->
  -99999900 <= MakeDay y mn dt <= 99999900.
Proof.
  intros Hy Hmn Hdt.
  destruct (Z.eq_dec mn (-1)) as [-> | ?]; [|destruct (Z.eq_dec mn 12) as [-> | ?]].
  - rewrite MakeDay_before_January, MakeDay_in_year by lia.
    pose proof (DayFromYear_range (y - 1) ltac:(lia)).
    pose proof (DayFromYear_succ (y - 1)) as Hs. replace (y - 1 + 1) with y in Hs by lia.
    pose proof (DayFromYear_mono (-271820) y ltac:(lia)) as Hlo.
    pose proof (DayFromYear_mono y 275759 ltac:(lia)) as Hhi.
    change (DayFromYear (-271820)) with (-99999744) in Hlo.
    change (DayFromYear 275759) with 99999379 in Hhi.
    destruct (leap_cases (y - 1)) as [(_ & -> & Hd) | (_ & -> & Hd)]; simpl; lia.
  - rewrite MakeDay_after_December, MakeDay_in_year by lia.
    pose proof (DayFromYear_mono (-271820) (y + 1) ltac:(lia)) as Hlo.
    pose proof (DayFromYear_mono (y + 1) 275760 ltac:(lia)) as Hhi.
    change (DayFromYear (-271820)) with (-99999744) in Hlo.
    change (DayFromYear 275760) with 99999744 in Hhi.
    simpl. lia.
  - rewrite MakeDay_in_year by lia.
    pose proof (DayFromYear_mono (-271820) y ltac:(lia)) as Hlo.
    pose proof (DayFromYear_mono y 275759 ltac:(lia)) as Hhi.
    change (DayFromYear (-271820)) with (-99999744) in Hlo.
    change (DayFromYear 275759) with 99999379 in Hhi.
    destruct (leap_cases y) as [(_ & -> & _) | (_ & -> & _)];
      month_cases mn; simpl; lia.
Qed.


(** ** Dates built and advanced by the program *)

Section HostFacts.

Variable tza : Z.
Hypothesis tza_bound : zone_offset tza.



Lemma days_from_S a n :
  days_from a (S n) = Some a :: days_from (a + msPerDay) n.
Proof.
  unfold days_from. simpl. rewrite Z.add_0_r. f_equal.
  rewrite <- seq_shift, List.map_map. apply List.map_ext. intros i. f_equal. lia.
Qed.

Lemma civil_date y mn dt k : civil y mn (dt + k) = civil y mn dt + k * msPerDay.
Proof. unfold civil, MakeDate. rewrite MakeDay_date. lia. Qed.

Lemma days_from_length a n : length (days_from a n) = n.
Proof. unfold days_from. by rewrite length_map, length_seq. Qed.

End HostFacts.

(** ** Hosts with transitions

    What the program computes on a host whose offset changes, as long as the
    local midnights it passes through are kept ([midnights_kept]). *)

Section ZoneFacts.

Variable zone : TimeZone.
Hypothesis bounded : zone_bounded zone.

Lemma TimeClip_UTC D :
  -99999900 <= D <= 99999900 ->
  TimeClip (UTC zone (MakeDate D 0)) = Some (UTC zone (MakeDate D 0)).
Proof.
  intros HD. pose proof (bounded (MakeDate D 0) false) as Hz.
  unfold zone_offset, TimeClip, UTC, MakeDate, msPerDay in *.
  destruct (Z.ltb_spec 8640000000000000
              (Z.abs (D * 86400000 + 0 - LocalTZA zone (D * 86400000 + 0) false)));
    [lia|done].
Qed.

Lemma newDate_midnight y yr mn dt :
  MakeFullYear y = yr -> -271820 <= yr <= 275759 ->
  -1 <= mn <= 12 -> -31 <= dt <= 63 ->
  newDate zone (Some y) (Some mn) (Some dt) = Some (UTC zone (civil yr mn dt)).
Proof.
  intros <- Hy Hmn Hdt. unfold newDate. change (MakeTime 0 0 0 0) with 0.
  apply TimeClip_UTC. by apply MakeDay_range.
Qed.

Variables yr M : Z.
Hypothesis year_range : -271820 <= yr <= 275759.
Hypothesis month_range : 0 <= M <= 11.
Hypothesis kept : midnights_kept zone yr M.

Lemma midnight_fields D :
  1 <= D <= DaysInMonth yr M ->
  let d := Some (UTC zone (civil yr M D)) in
  getFullYear zone d = Some yr /\ getMonth zone d = Some M
  /\ getDate zone d = Some D /\ getDay zone d = Some (WeekDay (civil yr M D)).
Proof.
  intros HD d. subst d. unfold getFullYear, getMonth, getDate, getDay.
  cbn [fmap option_fmap option_map].
  destruct (kept D HD) as [-> _]. unfold civil.
  destruct (fields_MakeDay yr M D 0 month_range HD ltac:(done)) as (_ & -> & -> & ->).
  done.
Qed.

(** [date.setDate(date.getDate() + 1)] moves a kept midnight to the next
    local midnight. *)
Lemma setDate_midnight D :
  1 <= D <= DaysInMonth yr M ->
  setDate zone (Some (UTC zone (civil yr M D)))
    (number_add (getDate zone (Some (UTC zone (civil yr M D)))) 1)
  = Some (UTC zone (civil yr M (D + 1))).
Proof.
  intros HD. pose proof (DaysInMonth_range yr M) as Hn.
  unfold setDate, getDate, number_add. cbn [fmap option_fmap option_map].
  destruct (kept D HD) as [-> _].
  destruct (fields_MakeDay yr M D 0 month_range HD ltac:(done)) as (_ & HY & HM & HDt).
  fold (civil yr M D) in HY, HM, HDt. rewrite HY, HM, HDt.
  replace (TimeWithinDay (civil yr M D)) with 0
    by (unfold civil, MakeDate, TimeWithinDay, msPerDay; zdiv).
  apply TimeClip_UTC. apply MakeDay_range; lia.
Qed.

Lemma midnights_ordered k : forall D,
  1 <= D -> D + Z.of_nat k = DaysInMonth yr M ->
  UTC zone (civil yr M D) <= UTC zone (civil yr M (DaysInMonth yr M)).
Proof.
  induction k as [|k IH]; intros D HD Hk.
  - replace D with (DaysInMonth yr M) by lia. lia.
  - destruct (kept D ltac:(lia)) as [_ Hlt].
    specialize (IH (D + 1) ltac:(lia) ltac:(lia)). lia.
Qed.

Lemma midnights_S y mn dt n :
  midnights zone y mn dt (S n)
  = Some (UTC zone (civil y mn dt)) :: midnights zone y mn (dt + 1) n.
Proof.
  unfold midnights. simpl. rewrite Z.add_0_r. f_equal.
  rewrite <- seq_shift, List.map_map. apply List.map_ext. intros i.
  do 3 f_equal. lia.
Qed.

Lemma midnights_lookup y mn dt n i :
  (i < n)%nat ->
  midnights zone y mn dt n !! i = Some (Some (UTC zone (civil y mn (dt + Z.of_nat i)))).
Proof.
  intros Hi. unfold midnights. rewrite list_lookup_fmap.
  by rewrite lookup_seq_lt.
Qed.

Lemma midnights_length y mn dt n : length (midnights zone y mn dt n) = n.
Proof. unfold midnights. by rewrite length_map, length_seq. Qed.

(** The loop from the midnight of day [D] of the month to the midnight of its
    last day. *)
Lemma daysLoop_midnights k : forall fuel D acc,
  (k < fuel)%nat -> 1 <= D -> D + Z.of_nat k = DaysInMonth yr M + 1 ->
  daysLoop zone fuel (Some (UTC zone (civil yr M D)))
    (Some (UTC zone (civil yr M (DaysInMonth yr M)))) acc
  = Some (acc ++ midnights zone yr M D k).
Proof.
  pose proof (DaysInMonth_range yr M) as Hn.
  induction k as [|k IH]; intros fuel D acc Hf HD Hk.
  - destruct fuel as [|fuel]; [lia|]. cbn [daysLoop date_le].
    destruct (kept (DaysInMonth yr M) ltac:(lia)) as [_ Hlt].
    replace D with (DaysInMonth yr M + 1) by lia.
    destruct (Z.leb_spec (UTC zone (civil yr M (DaysInMonth yr M + 1)))
                (UTC zone (civil yr M (DaysInMonth yr M)))); [lia|].
    by rewrite app_nil_r.
  - destruct fuel as [|fuel]; [lia|]. cbn [daysLoop date_le].
    pose proof (midnights_ordered (Z.to_nat (DaysInMonth yr M - D)) D HD ltac:(lia)) as Hle.
    destruct (Z.leb_spec (UTC zone (civil yr M D))
                (UTC zone (civil yr M (DaysInMonth yr M)))); [|lia].
    rewrite setDate_midnight by lia.
    rewrite IH by lia.
    by rewrite midnights_S, <- app_assoc.
Qed.

End ZoneFacts.

Lemma fixedZone_bounded tza : zone_offset tza -> zone_bounded (fixedZone tza).
Proof. intros Hz t isUTC. exact Hz. Qed.

Lemma fixedZone_midnights tza Y M : midnights_kept (fixedZone tza) Y M.
Proof.
  intros D HD. unfold LocalTime, UTC. cbn [LocalTZA fixedZone].
  rewrite civil_date. unfold msPerDay. lia.
Qed.

Lemma transitionZone_bounded before after at_utc :
  zone_offset before -> zone_offset after ->
  zone_bounded (transitionZone before after at_utc).
Proof.
  intros Hb Ha t isUTC. cbn [LocalTZA transitionZone].
  destruct isUTC, (t <? at_utc), (t <? at_utc + Z.max before after); done.
Qed.

(** A zone with one transition keeps the midnights of a month when none of
    them is a local time that the transition skips. *)
Lemma transitionZone_midnights before after at_utc Y M :
  Z.abs (after - before) < msPerDay ->
  (forall D, 1 <= D <= DaysInMonth Y M ->
     ~ (at_utc + before <= civil Y M D < at_utc + after)) ->
  midnights_kept (transitionZone before after at_utc) Y M.
Proof.
  intros Hgap Hskip D HD. specialize (Hskip D HD).
  rewrite civil_date. unfold LocalTime, UTC. cbn [LocalTZA transitionZone].
  set (t := civil Y M D) in *. unfold msPerDay in *.
  repeat match goal with
         | |- context [?a <? ?b] => destruct (Z.ltb_spec a b)
         end; lia.
Qed.

(** New York's clocks go forward at 02:00 on 2024-03-10: no midnight of March
    2024 is skipped. *)
Example new_york_keeps_march :
  zone_bounded new_york_2024 /\ midnights_kept new_york_2024 2024 2.
Proof.
  split.
  - apply transitionZone_bounded; unfold zone_offset, msPerDay; lia.
  - apply transitionZone_midnights; [unfold msPerDay; lia|].
    intros D HD. replace D with (1 + (D - 1)) by lia. rewrite civil_date.
    change (civil 2024 2 1) with 1709251200000. unfold msPerDay. lia.
Qed.

(** Havana's clocks go forward at midnight of 2024-03-10: that local midnight
    is read with the offset before the transition and is 01:00 on the
    clock. *)
Example havana_skips_midnight :
  UTC havana_2024 (civil 2024 2 10) = civil 2024 2 10 + 18000000
  /\ LocalTime havana_2024 (UTC havana_2024 (civil 2024 2 10))
     = civil 2024 2 10 + 3600000
  /\ ~ midnights_kept havana_2024 2024 2.
Proof.
  split; [reflexivity|]. split; [reflexivity|].
  intros H. destruct (H 10 ltac:(simpl; lia)) as [Hr _]. vm_compute in Hr. discriminate Hr.
Qed.

(** * The post store (src/App.tsx) *)

Lemma handleSavePost_create now postToSave st :
  from_option truthy_string false (input_id postToSave) = false ->
  posts (handleSavePost now postToSave st)
  = posts st ++ [spread_with_id postToSave (toISOString now)].
Proof.
  unfold handleSavePost. destruct (input_id postToSave) as [i|]; simpl; [|done].
  by intros ->.
Qed.

Lemma handleSavePost_update now postToSave st i :
  input_id postToSave = Some i -> i <> [] ->
  posts (handleSavePost now postToSave st)
  = List.map (fun p => if bool_decide (post_id p = i)
                       then spread_with_id postToSave i else p) (posts st).
Proof.
  unfold handleSavePost. intros -> Hi. by destruct i.
Qed.

Lemma handleDeletePost_posts postId st :
  posts (handleDeletePost postId st)
  = List.filter (fun p => negb (bool_decide (post_id p = postId))) (posts st).
Proof. reflexivity. Qed.

(** ** C1: saving an input without id *)

(** C1, as stated, fails: two saves in the same millisecond give the second
    post the id of the first. *)
Lemma save_new_same_instant :
  let postToSave := draftInput None in
  let st := handleSavePost march10 postToSave emptyStore in
  input_id postToSave = None /\ ~ save_new_is_fresh march10 postToSave st.
Proof.
  split; [reflexivity|].
  intros (newPost & Happ & _ & Hfresh).
  rewrite handleSavePost_create in Happ by reflexivity.
  apply app_inj_tail in Happ as [_ <-].
  eapply Hfresh; [|reflexivity]. vm_compute. left. reflexivity.
Qed.

(** C1 (amended): for every store and every input without id, [save]
    appends exactly one post, so the list is one entry longer; the new post
    carries the input's fields and, as id, the ISO rendering of the instant
    of the save, which differs from the id of every stored post whose id
    renders another instant. *)
Theorem save_new_appends now postToSave st :
  input_id postToSave = None ->
  exists newPost,
    posts (handleSavePost now postToSave st) = posts st ++ [newPost]
    /\ length (posts (handleSavePost now postToSave st)) = S (length (posts st))
    /\ post_id newPost = toISOString now
    /\ date newPost = input_date postToSave
    /\ images newPost = input_images postToSave
    /\ caption newPost = input_caption postToSave
    /\ status newPost = input_status postToSave
    /\ comments newPost = input_comments postToSave
    /\ forall p t, In p (posts st) -> post_id p = toISOString t -> t <> now ->
         post_id p <> post_id newPost.
Proof.
  intros Hid. exists (spread_with_id postToSave (toISOString now)).
  rewrite handleSavePost_create by (by rewrite Hid).
  split; [done|]. split; [rewrite length_app; simpl; lia|].
  do 6 (split; [done|]).
  intros p t _ Hp Ht Heq. simpl in Heq. rewrite Hp in Heq.
  by apply toISOString_inj in Heq.
Qed.

Lemma save_new_appends_witness :
  exists newPost,
    posts (handleSavePost (march10 + 1) (draftInput None)
             (handleSavePost march10 (draftInput None) emptyStore))
    = posts (handleSavePost march10 (draftInput None) emptyStore) ++ [newPost]
    /\ post_id newPost = str "2024-03-10T00:00:00.124Z".
Proof.
  destruct (save_new_appends (march10 + 1) (draftInput None)
              (handleSavePost march10 (draftInput None) emptyStore) eq_refl)
    as (newPost & Happ & _ & Hid & _).
  exists newPost. split; [exact Happ|]. rewrite Hid. vm_compute. reflexivity.
Defined.

(** ** C2: saving an input with the id of a stored post *)

(** C2, as stated, fails for a stored post whose id is the empty string: the
    test [if (postToSave.id)] takes the create branch and the store grows. *)
Lemma save_existing_empty_id :
  let P := postWithId [] in
  let st := storeOf (Some march10) [P] in
  let postToSave := draftInput (Some (post_id P)) in
  In P (posts st) /\ input_id postToSave = Some (post_id P)
  /\ ~ save_replaces march10 postToSave P st.
Proof.
  split; [left; reflexivity|]. split; [reflexivity|].
  intros [Hlen _]. vm_compute in Hlen. discriminate Hlen.
Qed.

(** C2 (amended): for every store and every stored post [P] with a
    non-empty id, saving an input that carries [P]'s id leaves the number of
    entries unchanged; every entry with that id then has exactly the
    supplied date, images, caption, status and comments and the same id;
    every other entry is unchanged. *)
Theorem save_existing_replaces now postToSave P st :
  In P (posts st) ->
  input_id postToSave = Some (post_id P) ->
  post_id P <> [] ->
  save_replaces now postToSave P st.
Proof.
  intros _ Hid Hne. unfold save_replaces. cbv zeta.
  rewrite (handleSavePost_update now postToSave st (post_id P) Hid Hne).
  split; [by rewrite length_map|].
  intros i q Hq.
  change (List.map ?f ?l) with (f <$> l). rewrite list_lookup_fmap, Hq. simpl.
  split.
  - intros Heq. rewrite bool_decide_eq_true_2 by done.
    eexists. split; [reflexivity|]. by repeat split.
  - intros Hneq. by rewrite bool_decide_eq_false_2.
Qed.

Lemma save_existing_replaces_witness :
  posts (handleSavePost march10 (draftInput (Some (str "1")))
           (storeOf (Some march10) [postWithId (str "1"); postWithId (str "2")]))
  !! 0%nat
  = Some {| post_id := str "1"; date := Some march10; images := [];
            caption := []; status := Draft; comments := [] |}.
Proof.
  destruct (save_existing_replaces march10 (draftInput (Some (str "1")))
              (postWithId (str "1"))
              (storeOf (Some march10) [postWithId (str "1"); postWithId (str "2")])
              (or_introl eq_refl) eq_refl ltac:(discriminate)) as [_ H].
  destruct (H 0%nat (postWithId (str "1")) eq_refl) as [H1 _].
  destruct (H1 eq_refl) as (q' & Hq' & _). rewrite Hq'.
  vm_compute in Hq'. injection Hq' as <-. reflexivity.
Defined.

(** ** C10: saving an input whose id no stored post has *)

(** C10, as stated, fails for the empty string as id: it is present,
    matches no stored post, and a post is created. *)
Lemma save_unknown_empty_id :
  let postToSave := draftInput (Some []) in
  input_id postToSave = Some []
  /\ (forall p, In p (posts emptyStore) -> post_id p <> [])
  /\ posts (handleSavePost march10 postToSave emptyStore) <> posts emptyStore.
Proof.
  split; [reflexivity|]. split; [intros p []|].
  vm_compute. discriminate.
Qed.

(** C10 (amended): for every store and every input whose id is present,
    non-empty and carried by no stored post, [save] leaves the post list as
    it was: nothing is created and nothing is modified. *)
Theorem save_unknown_id_unchanged now postToSave st i :
  input_id postToSave = Some i ->
  i <> [] ->
  (forall p, In p (posts st) -> post_id p <> i) ->
  posts (handleSavePost now postToSave st) = posts st.
Proof.
  intros Hid Hne Hnone.
  rewrite (handleSavePost_update now postToSave st i Hid Hne).
  induction (posts st) as [|p l IH]; [done|]. simpl.
  rewrite bool_decide_eq_false_2 by (apply Hnone; by left).
  f_equal. apply IH. intros q Hq. apply Hnone. by right.
Qed.

Lemma save_unknown_id_unchanged_witness :
  posts (handleSavePost march10 (draftInput (Some (str "7")))
           (storeOf (Some march10) [postWithId (str "1"); postWithId (str "2")]))
  = [postWithId (str "1"); postWithId (str "2")].
Proof.
  apply (save_unknown_id_unchanged march10 (draftInput (Some (str "7")))
           (storeOf (Some march10) [postWithId (str "1"); postWithId (str "2")])
           (str "7") eq_refl).
  - discriminate.
  - intros p [<- | [<- | []]]; vm_compute; discriminate.
Defined.

(** ** C5: delete *)

(** C5: after [delete(id)] no entry of the list has that id; and when no
    entry had it, the list is unchanged. *)
Theorem delete_removes_id postId st :
  (forall p, In p (posts (handleDeletePost postId st)) -> post_id p <> postId)
  /\ ((forall p, In p (posts st) -> post_id p <> postId) ->
      posts (handleDeletePost postId st) = posts st).
Proof.
  rewrite handleDeletePost_posts. split.
  - intros p Hp. apply filter_In in Hp as [_ Hp].
    apply negb_true_iff, bool_decide_eq_false_1 in Hp. exact Hp.
  - intros Hnone. induction (posts st) as [|p l IH]; [done|]. simpl.
    rewrite bool_decide_eq_false_2 by (apply Hnone; by left). simpl.
    f_equal. apply IH. intros q Hq. apply Hnone. by right.
Qed.

Lemma delete_removes_id_witness :
  posts (handleDeletePost (str "7")
           (storeOf (Some march10) [postWithId (str "1"); postWithId (str "2")]))
  = [postWithId (str "1"); postWithId (str "2")].
Proof.
  apply (delete_removes_id (str "7")
           (storeOf (Some march10) [postWithId (str "1"); postWithId (str "2")])).
  intros p [<- | [<- | []]]; vm_compute; discriminate.
Defined.

(** * Bucketing by calendar day (src/App.tsx, [postsByDate]) *)

Lemma postsByDate_step_lookup (zone : TimeZone) (m : gmap (list N) (list Post)) p k :
  postsByDate_step zone m p !! k
  = if bool_decide (toDateString zone (date p) = k)
    then Some (default [] (m !! k) ++ [p])
    else m !! k.
Proof.
  unfold postsByDate_step. cbv zeta.
  set (key := toDateString zone (date p)).
  destruct (m !! key) as [b|] eqn:Hm.
  - rewrite bool_decide_eq_true_2 by eauto. rewrite Hm.
    case_bool_decide as Hk.
    + subst k. by rewrite lookup_insert_eq, Hm.
    + by rewrite lookup_insert_ne.
  - rewrite bool_decide_eq_false_2 by (intros [? ?]; congruence).
    rewrite lookup_insert_eq.
    case_bool_decide as Hk.
    + subst k. by rewrite lookup_insert_eq, Hm.
    + by rewrite !lookup_insert_ne.
Qed.

Lemma postsByDate_fold (zone : TimeZone) l : forall (m : gmap (list N) (list Post)) k,
  foldl (postsByDate_step zone) m l !! k
  = match m !! k with
    | Some b => Some (b ++ on_key zone k l)
    | None => match on_key zone k l with [] => None | b => Some b end
    end.
Proof.
  induction l as [|p l IH]; intros m k; simpl.
  - destruct (m !! k); by rewrite ?app_nil_r.
  - rewrite IH, postsByDate_step_lookup. unfold on_key. simpl.
    case_bool_decide as Hk.
    + destruct (m !! k); simpl; by rewrite <- ?app_assoc.
    + done.
Qed.

Lemma postsByDate_lookup (zone : TimeZone) l k :
  postsByDate zone l !! k
  = match on_key zone k l with [] => None | b => Some b end.
Proof. unfold postsByDate. by rewrite postsByDate_fold, lookup_empty. Qed.

Lemma toDateString_Day zone t1 t2 :
  toDateString zone (Some t1) = toDateString zone (Some t2)
  <-> Day (LocalTime zone t1) = Day (LocalTime zone t2).
Proof. apply DateString_Day. Qed.

(** C4: the buckets partition the post list.  The bucket under a key is
    the subsequence of the posts with that key, in input order, and there is
    no empty bucket; so every post lies in the bucket of its own key and in
    no other.  The key of a valid date is its local calendar day: two dates
    have the same key exactly when they fall on the same local day, whatever
    the time of day; invalid dates share one key of their own. *)
Theorem postsByDate_partition (zone : TimeZone) (l : list Post) :
  (forall k,
     postsByDate zone l !! k
     = match on_key zone k l with [] => None | b => Some b end)
  /\ (forall p, In p l ->
        exists b, postsByDate zone l !! toDateString zone (date p) = Some b
                  /\ In p b)
  /\ (forall k b p, postsByDate zone l !! k = Some b -> In p b ->
        In p l /\ toDateString zone (date p) = k)
  /\ (forall t1 t2,
        toDateString zone (Some t1) = toDateString zone (Some t2)
        <-> Day (LocalTime zone t1) = Day (LocalTime zone t2))
  /\ (forall t, toDateString zone (Some t) <> toDateString zone None).
Proof.
  split; [apply postsByDate_lookup|]. split; [|split; [|split]].
  - intros p Hp. rewrite postsByDate_lookup.
    assert (Hin : In p (on_key zone (toDateString zone (date p)) l)).
    { apply filter_In. split; [done|]. by apply bool_decide_eq_true_2. }
    destruct (on_key zone (toDateString zone (date p)) l) as [|q b];
      [destruct Hin|].
    by exists (q :: b).
  - intros k b p Hb Hp. rewrite postsByDate_lookup in Hb.
    assert (Hin : In p (on_key zone k l)).
    { destruct (on_key zone k l); [discriminate|]. by injection Hb as <-. }
    apply filter_In in Hin as [Hl Hk]. split; [done|].
    by apply bool_decide_eq_true_1 in Hk.
  - apply toDateString_Day.
  - intros t. apply DateString_not_invalid.
Qed.

Lemma postsByDate_partition_witness :
  postsByDate (fixedZone 0) [postWithId (str "1"); postWithId (str "2")]
  !! str "Sun Mar 10 2024"
  = Some [postWithId (str "1"); postWithId (str "2")].
Proof.
  destruct (postsByDate_partition (fixedZone 0)
              [postWithId (str "1"); postWithId (str "2")]) as [H _].
  rewrite H. vm_compute. reflexivity.
Defined.

(** * The month grid (the [Calendar] component) *)

Lemma isToday_on_date zone now d Y M D :
  getFullYear zone d = Some Y -> getMonth zone d = Some M ->
  getDate zone d = Some D ->
  (isToday zone (Some now) d = true <-> on_date zone now Y M D).
Proof.
  intros HY HM HD. unfold isToday, on_date. rewrite !andb_true_iff.
  rewrite HY, HM, HD. unfold number_eq.
  destruct (getFullYear zone (Some now)) as [y|] eqn:Ey; [|simpl in Ey; discriminate].
  destruct (getMonth zone (Some now)) as [m|] eqn:Em; [|simpl in Em; discriminate].
  destruct (getDate zone (Some now)) as [d'|] eqn:Ed; [|simpl in Ed; discriminate].
  rewrite !Z.eqb_eq. split.
  - by intros [[-> ->] ->].
  - intros (Hy & Hm & Hd). by simplify_eq.
Qed.

(** The grid of a current date in month [M] of a year that the constructor
    reads as [yr], on a host that keeps the midnights of that month. *)
Lemma Calendar_midnights zone fuel now tv postsByDate Y M yr :
  zone_bounded zone ->
  getFullYear zone (Some tv) = Some Y -> getMonth zone (Some tv) = Some M ->
  MakeFullYear Y = yr -> -271820 <= yr <= 275759 ->
  midnights_kept zone yr M ->
  (32 <= fuel)%nat ->
  exists grid,
    Calendar zone fuel now (Some tv) postsByDate = Some grid
    /\ emptyCells grid = seq 0 (Z.to_nat (WeekDay (civil yr M 1)))
    /\ dayCells grid
       = imap (renderCell zone postsByDate (Some now)
                 (Some (WeekDay (civil yr M 1))) (Z.to_nat (DaysInMonth yr M)))
           (midnights zone yr M 1 (Z.to_nat (DaysInMonth yr M))).
Proof.
  intros Hb HY HM Hyr Hr Hk Hf.
  assert (Hm : 0 <= M <= 11).
  { injection HM as <-. apply MonthFromTime_range. }
  pose proof (DaysInMonth_range yr M) as Hn.
  unfold Calendar. rewrite HY, HM. cbv zeta.
  cbn [number_add fmap option_fmap option_map].
  rewrite (newDate_midnight zone Hb Y yr M 1 Hyr Hr) by lia.
  rewrite (newDate_midnight zone Hb Y yr (M + 1) 0 Hyr Hr) by lia.
  unfold civil at 2. rewrite MakeDay_last by done.
  fold (civil yr M (DaysInMonth yr M)).
  rewrite (daysLoop_midnights zone Hb yr M Hr Hm Hk (Z.to_nat (DaysInMonth yr M)))
    by lia.
  destruct (midnight_fields zone yr M Hm Hk 1 ltac:(lia)) as (_ & _ & _ & ->).
  eexists. split; [reflexivity|]. cbn [emptyCells dayCells array_from_length].
  by rewrite app_nil_l, midnights_length.
Qed.

(** A grid of that shape is the grid of the month. *)
Lemma month_grid_midnights zone now postsByDate yr M grid :
  0 <= M <= 11 ->
  midnights_kept zone yr M ->
  emptyCells grid = seq 0 (Z.to_nat (WeekDay (civil yr M 1))) ->
  dayCells grid
  = imap (renderCell zone postsByDate (Some now)
            (Some (WeekDay (civil yr M 1))) (Z.to_nat (DaysInMonth yr M)))
      (midnights zone yr M 1 (Z.to_nat (DaysInMonth yr M))) ->
  month_grid zone yr M grid
  /\ forall i cell, dayCells grid !! i = Some cell ->
       cellIsToday cell = isToday zone (Some now) (cell_date cell)
       /\ postsForDay cell = default [] (postsByDate !! toDateString zone (cell_date cell)).
Proof.
  intros Hm Hk He Hd. pose proof (DaysInMonth_range yr M) as Hn.
  pose proof (WeekDay_range (civil yr M 1)) as Hw.
  unfold month_grid. rewrite He, Hd, length_imap, midnights_length, length_seq.
  assert (Hcell : forall i cell,
    imap (renderCell zone postsByDate (Some now)
            (Some (WeekDay (civil yr M 1))) (Z.to_nat (DaysInMonth yr M)))
      (midnights zone yr M 1 (Z.to_nat (DaysInMonth yr M))) !! i = Some cell ->
    (i < Z.to_nat (DaysInMonth yr M))%nat
    /\ cell = renderCell zone postsByDate (Some now)
            (Some (WeekDay (civil yr M 1))) (Z.to_nat (DaysInMonth yr M)) i
            (Some (UTC zone (civil yr M (1 + Z.of_nat i))))).
  { intros i cell Hi. rewrite list_lookup_imap in Hi.
    destruct (midnights _ _ _ _ _ !! i) as [d|] eqn:Ed; [|discriminate].
    assert (Hlt : (i < Z.to_nat (DaysInMonth yr M))%nat).
    { apply lookup_lt_Some in Ed. by rewrite midnights_length in Ed. }
    rewrite midnights_lookup in Ed by done. injection Ed as <-.
    injection Hi as <-. done. }
  split; [split; [lia|split; [lia|]]|].
  - intros i cell Hi. destruct (Hcell i cell Hi) as [Hlt ->].
    unfold renderCell. cbn [cell_date].
    replace (Z.of_nat i + 1) with (1 + Z.of_nat i) by lia.
    destruct (midnight_fields zone yr M Hm Hk (1 + Z.of_nat i) ltac:(lia))
      as (H1 & H2 & H3 & _). done.
  - intros i cell Hi. destruct (Hcell i cell Hi) as [Hlt ->]. done.
Qed.

(** C3, as stated, fails in three ways.  For a date in January of year 50
    the component builds the grid of January 1950, because [new Date(year,
    month, 1)] reads the years 0 to 99 as 1900 to 1999: the cells are not
    days of year 50 and day 1 falls on another weekday.  For a date in
    September 275760 the last day of the month is beyond the largest time
    value, [lastDayOfMonth] is an invalid date and no cell is built.  And on
    a host whose clocks go forward at the local midnight of 2024-03-10
    (Havana), the loop's date is 01:00 from that day on, the date of March 31
    is later than [lastDayOfMonth], and March 2024 with today = 2024-03-10
    gets 30 cells. *)
Lemma Calendar_grid_fails :
  (getFullYear (fixedZone 0) (Some jan15_year50) = Some 50
   /\ getMonth (fixedZone 0) (Some jan15_year50) = Some 0
   /\ exists grid,
        Calendar (fixedZone 0) 40 march10 (Some jan15_year50) ∅ = Some grid
        /\ length (emptyCells grid) = 0%nat
        /\ WeekDay (civil 50 0 1) = 6
        /\ ~ month_grid (fixedZone 0) 50 0 grid)
  /\ (getFullYear (fixedZone 0) (Some sep1_year275760) = Some 275760
      /\ getMonth (fixedZone 0) (Some sep1_year275760) = Some 8
      /\ exists grid,
           Calendar (fixedZone 0) 40 march10 (Some sep1_year275760) ∅ = Some grid
           /\ dayCells grid = []
           /\ ~ month_grid (fixedZone 0) 275760 8 grid)
  /\ (on_date havana_2024 march10_midday 2024 2 10
      /\ exists grid,
           Calendar havana_2024 40 march10_midday (Some march10_midday) ∅ = Some grid
           /\ length (dayCells grid) = 30%nat
           /\ ~ month_grid havana_2024 2024 2 grid).
Proof.
  split; [|split].
  - split; [reflexivity|]. split; [reflexivity|].
    eexists. split; [vm_compute; reflexivity|].
    split; [reflexivity|]. split; [reflexivity|].
    intros (_ & Hblank & _). vm_compute in Hblank. discriminate Hblank.
  - split; [reflexivity|]. split; [reflexivity|].
    eexists. split; [vm_compute; reflexivity|]. split; [reflexivity|].
    intros (Hcount & _). vm_compute in Hcount. discriminate Hcount.
  - split; [repeat split|].
    eexists. split; [vm_compute; reflexivity|]. split; [reflexivity|].
    intros (Hcount & _). vm_compute in Hcount. discriminate Hcount.
Qed.

(** C3 (amended): on a host whose zone offsets are at most a day and whose
    clock keeps every local midnight of the month (none is skipped by a
    transition, and each comes before the next), for a current date in month
    [M] of a year [Y] outside 0..99 (and inside the range of [Date]), the
    component, given fuel for its loop, renders one cell per day of that
    month, in order, so as many cells as the month has days, preceded by as
    many empty cells as the Sunday-first weekday index (0..6) of day 1 of the
    month; a cell is marked today exactly when the clock reads that day, and
    shows the bucket of its day.  For 2024, month 2, with the clock on
    2024-03-10: 31 cells, 5 leading empty cells, and the cell of March 10 is
    marked today. *)
Theorem Calendar_month_grid zone fuel now tv postsByDate Y M :
  zone_bounded zone ->
  midnights_kept zone Y M ->
  getFullYear zone (Some tv) = Some Y ->
  getMonth zone (Some tv) = Some M ->
  plain_year Y ->
  (32 <= fuel)%nat ->
  exists grid,
    Calendar zone fuel now (Some tv) postsByDate = Some grid
    /\ month_grid zone Y M grid
    /\ 0 <= WeekDay (civil Y M 1) <= 6
    /\ (forall i cell, dayCells grid !! i = Some cell ->
          (cellIsToday cell = true <-> on_date zone now Y M (Z.of_nat i + 1))
          /\ postsForDay cell
             = default [] (postsByDate !! toDateString zone (cell_date cell)))
    /\ (Y = 2024 -> M = 2 -> on_date zone now 2024 2 10 ->
          length (dayCells grid) = 31%nat
          /\ length (emptyCells grid) = 5%nat
          /\ exists cell, dayCells grid !! 9%nat = Some cell
               /\ getDate zone (cell_date cell) = Some 10
               /\ cellIsToday cell = true).
Proof.
  intros Hb Hk HY HM Hp Hf.
  assert (Hm : 0 <= M <= 11).
  { injection HM as <-. apply MonthFromTime_range. }
  assert (Hyr : MakeFullYear Y = Y).
  { unfold MakeFullYear, plain_year in *.
    destruct (Z.leb_spec 0 Y), (Z.leb_spec Y 99); simpl; lia. }
  destruct (Calendar_midnights zone fuel now tv postsByDate Y M Y Hb HY HM Hyr
              ltac:(unfold plain_year in Hp; lia) Hk Hf) as (grid & Hgrid & He & Hd).
  destruct (month_grid_midnights zone now postsByDate Y M grid Hm Hk He Hd)
    as [Hmg Hcells].
  exists grid. split; [done|]. split; [done|]. split; [apply WeekDay_range|].
  destruct Hmg as (Hlen & Hblank & Hfields). split.
  - intros i cell Hi. destruct (Hcells i cell Hi) as [-> ->]. split; [|done].
    destruct (Hfields i cell Hi) as (H1 & H2 & H3). by apply isToday_on_date.
  - intros -> -> Htoday.
    split; [apply Nat2Z.inj; by rewrite Hlen|].
    split; [apply Nat2Z.inj; by rewrite Hblank|].
    destruct (lookup_lt_is_Some_2 (dayCells grid) 9%nat) as [cell Hcell].
    { apply Nat2Z.inj_lt. rewrite Hlen. simpl. lia. }
    exists cell. split; [done|].
    destruct (Hfields _ _ Hcell) as (H1 & H2 & H3). split; [done|].
    destruct (Hcells _ _ Hcell) as [-> _].
    by apply (isToday_on_date zone now _ 2024 2 10).
Qed.

Lemma Calendar_month_grid_witness :
  exists grid,
    Calendar new_york_2024 40 march10_midday (Some march10_midday) ∅ = Some grid
    /\ length (dayCells grid) = 31%nat
    /\ length (emptyCells grid) = 5%nat.
Proof.
  destruct (Calendar_month_grid new_york_2024 40 march10_midday march10_midday ∅ 2024 2)
    as (grid & Hgrid & _ & _ & _ & Hscenario).
  - apply transitionZone_bounded; unfold zone_offset, msPerDay; lia.
  - apply transitionZone_midnights; [unfold msPerDay; lia|].
    intros D HD. replace D with (1 + (D - 1)) by lia. rewrite civil_date.
    change (civil 2024 2 1) with 1709251200000. unfold msPerDay. lia.
  - reflexivity.
  - reflexivity.
  - right. lia.
  - lia.
  - exists grid. split; [exact Hgrid|].
    destruct (Hscenario eq_refl eq_refl) as (H31 & H5 & _).
    + repeat split.
    + by split.
Defined.

(** * Month navigation (src/App.tsx) *)




(** * The modal (the [PostModal] component) *)

(** ** C6: saving with no date *)

(** C6, as stated, fails: with neither a post nor a pre-selected day,
    [handleSave] raises nothing. *)
Lemma handleSave_no_date_no_error :
  ~ exists error, handleSave None None emptyModal = Throw error.
Proof. intros [error H]. discriminate H. Qed.

(** C6 (amended): when both the modal's post and its date are null,
    [handleSave] returns at once without calling [onSave] and without
    raising; wired into the application, the Save button then leaves the
    whole state, posts included, as it was. *)
Theorem handleSave_no_date_returns m :
  handleSave None None m = Normal None
  /\ forall now st,
       selectedPost st = None -> selectedDate st = None ->
       clickSave now m st = Normal st.
Proof.
  split; [reflexivity|].
  intros now st Hp Hd. unfold clickSave. by rewrite Hp, Hd.
Qed.

Lemma handleSave_no_date_returns_witness :
  clickSave march10 emptyModal emptyStore = Normal emptyStore.
Proof.
  destruct (handleSave_no_date_returns emptyModal) as [_ H].
  apply (H march10 emptyStore); reflexivity.
Defined.

(** ** C9: adding a comment *)

Lemma trimStart_nil s : trimStart s = [] <-> forallb isTrimmed s = true.
Proof.
  induction s as [|c s IH]; simpl; [done|].
  destruct (isTrimmed c); simpl; [done|]. split; discriminate.
Qed.

Lemma trimStart_head s c r : trimStart s = c :: r -> isTrimmed c = false.
Proof.
  induction s as [|c' s IH]; simpl; [discriminate|].
  destruct (isTrimmed c') eqn:E; [done|]. by intros [= -> ->].
Qed.

Lemma forallb_rev {A} (f : A -> bool) l : forallb f (rev l) = forallb f l.
Proof.
  induction l as [|x l IH]; simpl; [done|].
  rewrite forallb_app, IH. simpl. rewrite andb_true_r. apply andb_comm.
Qed.

(** [trim] leaves nothing exactly when every code unit is white space or a
    line terminator (in particular when there is none). *)
Lemma trim_nil s : trim s = [] <-> forallb isTrimmed s = true.
Proof.
  unfold trim, trimEnd. rewrite <- trimStart_nil. split.
  - intros H. apply (f_equal (@rev N)) in H. rewrite rev_involutive in H.
    simpl in H. apply trimStart_nil in H. rewrite forallb_rev in H.
    destruct (trimStart s) as [|c r] eqn:E; [done|].
    apply trimStart_head in E. simpl in H. by rewrite E in H.
  - by intros ->.
Qed.

(** C9: a comment text that is empty or consists of white space only is
    rejected: the buffer, its comment list included, is unchanged.  Any
    other text appends exactly one comment, with that text and author, at
    the end of the list; the comments already there keep their places. *)
Theorem handleAddComment_blank_or_append now now' a m :
  (forallb isTrimmed (newComment m) = true -> handleAddComment now now' a m = m)
  /\ (forallb isTrimmed (newComment m) = false ->
      exists c,
        m_comments (handleAddComment now now' a m) = m_comments m ++ [c]
        /\ text c = newComment m /\ author c = a
        /\ timestamp c = Some now' /\ comment_id c = toISOString now
        /\ length (m_comments (handleAddComment now now' a m))
           = S (length (m_comments m))
        /\ forall i c', m_comments m !! i = Some c' ->
             m_comments (handleAddComment now now' a m) !! i = Some c').
Proof.
  unfold handleAddComment. split.
  - intros Hblank. apply trim_nil in Hblank.
    by rewrite bool_decide_eq_true_2.
  - intros Htext.
    rewrite bool_decide_eq_false_2
      by (intros H; apply trim_nil in H; congruence).
    eexists. split; [reflexivity|]. cbn [m_comments text author timestamp comment_id].
    do 4 (split; [done|]). split; [rewrite length_app; simpl; lia|].
    intros i c' Hc'. by apply lookup_app_l_Some.
Qed.

Lemma handleAddComment_blank_or_append_witness :
  handleAddComment march10 (march10 + 1) Reviewer (modalWithText (str "   "))
  = modalWithText (str "   ")
  /\ exists c,
       m_comments (handleAddComment march10 (march10 + 1) Reviewer
                     (modalWithText (str " ok ")))
       = [c] /\ text c = str " ok ".
Proof.
  split.
  - apply (handleAddComment_blank_or_append march10 (march10 + 1) Reviewer
             (modalWithText (str "   "))).
    reflexivity.
  - destruct (handleAddComment_blank_or_append march10 (march10 + 1) Reviewer
                (modalWithText (str " ok "))) as [_ H].
    destruct (H eq_refl) as (c & Hc & Ht & _). exists c. split; [exact Hc | exact Ht].
Defined.

(** * The caption service (src/services/geminiService.ts) *)

(** C7: [suggestCaption] never throws (its promise is never rejected).
    Without a usable API key it returns the configuration message; when the
    model call throws, whatever the error, it returns the apology; otherwise
    it returns the text of the response. *)
Theorem suggestCaption_never_throws API_KEY generateContent images :
  exists s,
    suggestCaption API_KEY generateContent images = Normal s
    /\ (from_option truthy_string false API_KEY = false -> s = msg_no_key)
    /\ (from_option truthy_string false API_KEY = true ->
        forall error, generateContent (captionRequest images) = Throw error ->
        s = msg_failed)
    /\ (from_option truthy_string false API_KEY = true ->
        forall response, generateContent (captionRequest images) = Normal response ->
        s = response_text response).
Proof.
  unfold suggestCaption.
  destruct (from_option truthy_string false API_KEY) eqn:Hkey; simpl.
  - destruct (generateContent (captionRequest images)) as [response|error] eqn:Hcall;
      simpl; eexists; (split; [reflexivity|]);
      (split; [discriminate|]); split; intros _ ? [=]; by subst.
  - eexists. split; [reflexivity|]. split; [done|]. split; discriminate.
Qed.

Lemma suggestCaption_never_throws_witness :
  suggestCaption (Some (str "key")) (fun _ => Throw (str "quota")) [str "data:image/png;base64,AAAA"]
  = Normal msg_failed.
Proof.
  destruct (suggestCaption_never_throws (Some (str "key")) (fun _ => Throw (str "quota"))
              [str "data:image/png;base64,AAAA"]) as (s & Hs & _ & Hfail & _).
  rewrite Hs. f_equal. exact (Hfail eq_refl (str "quota") eq_refl).
Defined.

(** * Beyond the stated claims *)

(** * The image carousel *)

Lemma goToNext_mod (images : list (list N)) i :
  0 <= i < Z.of_nat (length images) ->
  ImageCarousel.goToNext images i = (i + 1) mod Z.of_nat (length images).
Proof.
  intros Hi. unfold ImageCarousel.goToNext. cbv zeta.
  destruct (Z.eqb_spec i (Z.of_nat (length images) - 1)) as [Hl | Hl].
  - apply (Z.mod_unique _ _ 1); lia.
  - apply (Z.mod_unique _ _ 0); lia.
Qed.

Lemma goToPrevious_mod (images : list (list N)) i :
  0 <= i < Z.of_nat (length images) ->
  ImageCarousel.goToPrevious images i = (i - 1) mod Z.of_nat (length images).
Proof.
  intros Hi. unfold ImageCarousel.goToPrevious. cbv zeta.
  destruct (Z.eqb_spec i 0) as [Hf | Hf].
  - apply (Z.mod_unique _ _ (-1)); lia.
  - apply (Z.mod_unique _ _ 0); lia.
Qed.

(** X1: with the index on an image, the next button moves it one up and the
    previous button one down, modulo the number of images; so the index
    stays on an image. *)
Theorem carousel_steps_modulo (images : list (list N)) i :
  0 <= i < Z.of_nat (length images) ->
  ImageCarousel.goToNext images i = (i + 1) mod Z.of_nat (length images)
  /\ ImageCarousel.goToPrevious images i = (i - 1) mod Z.of_nat (length images)
  /\ 0 <= ImageCarousel.goToNext images i < Z.of_nat (length images)
  /\ 0 <= ImageCarousel.goToPrevious images i < Z.of_nat (length images).
Proof.
  intros Hi. rewrite goToNext_mod, goToPrevious_mod by done.
  repeat split; try apply Z.mod_pos_bound; lia.
Qed.

Lemma carousel_steps_modulo_witness :
  ImageCarousel.goToNext carouselImages 2 = 0
  /\ ImageCarousel.goToPrevious carouselImages 0 = 2.
Proof.
  destruct (carousel_steps_modulo carouselImages 2 ltac:(simpl; lia)) as (H1 & _).
  destruct (carousel_steps_modulo carouselImages 0 ltac:(simpl; lia)) as (_ & H2 & _).
  split; [rewrite H1 | rewrite H2]; reflexivity.
Defined.

Lemma iter_goToNext (images : list (list N)) i k :
  0 <= i < Z.of_nat (length images) ->
  Nat.iter k (ImageCarousel.goToNext images) i
  = (i + Z.of_nat k) mod Z.of_nat (length images).
Proof.
  intros Hi. induction k as [|k IH].
  - simpl. rewrite Z.add_0_r. by rewrite Z.mod_small.
  - change (Nat.iter (S k) (ImageCarousel.goToNext images) i)
      with (ImageCarousel.goToNext images (Nat.iter k (ImageCarousel.goToNext images) i)).
    rewrite IH.
    rewrite goToNext_mod by (apply Z.mod_pos_bound; lia).
    rewrite Zplus_mod_idemp_l. f_equal. lia.
Qed.

(** X2: with the index on an image, previous undoes next and next undoes
    previous, and pressing next once per image comes back to the image one
    started from. *)
Theorem carousel_round_trips (images : list (list N)) i :
  0 <= i < Z.of_nat (length images) ->
  ImageCarousel.goToPrevious images (ImageCarousel.goToNext images i) = i
  /\ ImageCarousel.goToNext images (ImageCarousel.goToPrevious images i) = i
  /\ Nat.iter (length images) (ImageCarousel.goToNext images) i = i.
Proof.
  intros Hi. split; [|split].
  - unfold ImageCarousel.goToNext, ImageCarousel.goToPrevious. cbv zeta.
    destruct (Z.eqb_spec i (Z.of_nat (length images) - 1)) as [Hl | Hl].
    + simpl. lia.
    + destruct (Z.eqb_spec (i + 1) 0); lia.
  - unfold ImageCarousel.goToNext, ImageCarousel.goToPrevious. cbv zeta.
    destruct (Z.eqb_spec i 0) as [Hf | Hf].
    + rewrite Z.eqb_refl. lia.
    + destruct (Z.eqb_spec (i - 1) (Z.of_nat (length images) - 1)); lia.
  - rewrite iter_goToNext by done.
    symmetry. apply (Z.mod_unique _ _ 1); lia.
Qed.

Lemma carousel_round_trips_witness :
  Nat.iter 3 (ImageCarousel.goToNext carouselImages) 1 = 1.
Proof.
  apply (carousel_round_trips carouselImages 1). simpl. lia.
Defined.

Lemma foldl_press_in_range (images : list (list N)) ps : forall i,
  0 <= i < Z.of_nat (length images) ->
  0 <= foldl (ImageCarousel.press images) i ps < Z.of_nat (length images).
Proof.
  induction ps as [|p ps IH]; intros i Hi; [done|].
  simpl. apply IH. destruct p; simpl.
  - rewrite goToPrevious_mod by done. apply Z.mod_pos_bound. lia.
  - rewrite goToNext_mod by done. apply Z.mod_pos_bound. lia.
Qed.

Lemma presses_in_range (images : list (list N)) ps :
  images <> [] ->
  0 <= ImageCarousel.presses images ps < Z.of_nat (length images).
Proof.
  intros Hne. apply foldl_press_in_range. destruct images; [done|simpl; lia].
Qed.

(** X3: for a non-empty image list, after any sequence of presses from the
    initial index 0 the carousel renders an image of the list (never an
    undefined [src]), numbered between 1 and the number of images; and when
    dots are shown there is one per image, highlighted for the current
    index only. *)
Theorem carousel_always_shows_an_image (images : list (list N)) ps :
  images <> [] ->
  exists src dots,
    ImageCarousel.render images (ImageCarousel.presses images ps)
    = ImageCarousel.Slide (Some src)
        (ImageCarousel.presses images ps + 1) dots
    /\ images !! Z.to_nat (ImageCarousel.presses images ps) = Some src
    /\ 1 <= ImageCarousel.presses images ps + 1 <= Z.of_nat (length images)
    /\ forall l, dots = Some l ->
         length l = length images
         /\ forall j, l !! j
              = if decide (j < length images)%nat
                then Some (bool_decide (j = Z.to_nat (ImageCarousel.presses images ps)))
                else None.
Proof.
  intros Hne. pose proof (presses_in_range images ps Hne) as Hr.
  set (i := ImageCarousel.presses images ps) in *.
  destruct (lookup_lt_is_Some_2 images (Z.to_nat i)) as [src Hsrc]; [lia|].
  unfold ImageCarousel.render, ImageCarousel.at_index.
  destruct (Nat.eqb_spec (length images) 0) as [H0|H0]; [destruct images; done|].
  destruct (Z.ltb_spec i 0); [lia|]. rewrite Hsrc.
  eexists _, _. split; [reflexivity|]. split; [done|]. split; [lia|].
  intros l Hl. destruct (Nat.ltb_spec 1 (length images)); [|done].
  injection Hl as <-. split; [by rewrite length_imap|].
  intros j. rewrite list_lookup_imap.
  case_decide as Hj.
  - destruct (lookup_lt_is_Some_2 images j Hj) as [x ->]. simpl. f_equal.
    destruct (Z.eqb_spec i (Z.of_nat j)); [rewrite bool_decide_eq_true_2|rewrite bool_decide_eq_false_2]; lia.
  - rewrite lookup_ge_None_2 by lia. done.
Qed.

Lemma carousel_always_shows_an_image_witness :
  exists dots,
    ImageCarousel.render carouselImages
      (ImageCarousel.presses carouselImages
         [ImageCarousel.Previous; ImageCarousel.Previous; ImageCarousel.Next])
    = ImageCarousel.Slide (Some (str "c")) 3 dots.
Proof.
  destruct (carousel_always_shows_an_image carouselImages
              [ImageCarousel.Previous; ImageCarousel.Previous; ImageCarousel.Next]
              ltac:(discriminate)) as (src & dots & Hr & Hs & _).
  exists dots. rewrite Hr. vm_compute in Hs. injection Hs as <-. reflexivity.
Defined.

(** * The month grid on every input *)

Lemma setDate_next_clip tza tv :
  setDate (fixedZone tza) (Some tv) (number_add (getDate (fixedZone tza) (Some tv)) 1)
  = TimeClip (tv + msPerDay).
Proof.
  unfold setDate, getDate, number_add.
  cbn [fmap option_fmap option_map]. rewrite MakeDay_date, MakeDay_fields.
  unfold UTC, MakeDate. cbn [LocalTZA fixedZone]. f_equal.
  unfold Day, TimeWithinDay, LocalTime, msPerDay; cbn [LocalTZA fixedZone]; zdiv.
Qed.

Lemma TimeClip_Some t u : TimeClip t = Some u -> u = t /\ Z.abs t <= 8640000000000000.
Proof.
  unfold TimeClip. destruct (Z.ltb_spec 8640000000000000 (Z.abs t)); [done|].
  intros [= <-]. done.
Qed.

Lemma TimeClip_in_range t : Z.abs t <= 8640000000000000 -> TimeClip t = Some t.
Proof.
  unfold TimeClip. destruct (Z.ltb_spec 8640000000000000 (Z.abs t)); [lia|done].
Qed.

Lemma daysLoop_exit zone fuel d last acc :
  date_le d last = false -> daysLoop zone (S fuel) d last acc = Some acc.
Proof. simpl. by intros ->. Qed.

(** The loop between two valid dates a whole number of days apart. *)
Lemma daysLoop_between tza n : forall fuel a b acc,
  (n < fuel)%nat ->
  - 8640000000000000 <= a -> b <= 8640000000000000 ->
  a + (Z.of_nat n - 1) * msPerDay <= b < a + Z.of_nat n * msPerDay ->
  daysLoop (fixedZone tza) fuel (Some a) (Some b) acc = Some (acc ++ days_from a n).
Proof.
  induction n as [|n IH]; intros fuel a b acc Hf Ha Hb Hab.
  - destruct fuel as [|fuel]; [lia|]. rewrite daysLoop_exit.
    + by rewrite app_nil_r.
    + simpl. apply Z.leb_gt. unfold msPerDay in *. lia.
  - destruct fuel as [|fuel]; [lia|].
    cbn [daysLoop date_le].
    destruct (Z.leb_spec a b); [|unfold msPerDay in *; lia].
    rewrite setDate_next_clip, days_from_S.
    replace (acc ++ Some a :: days_from (a + msPerDay) n)
      with ((acc ++ [Some a]) ++ days_from (a + msPerDay) n)
      by (by rewrite <- app_assoc).
    destruct n as [|n].
    + destruct fuel as [|fuel]; [lia|]. rewrite daysLoop_exit; [by rewrite app_nil_r|].
      destruct (TimeClip (a + msPerDay)) as [u|] eqn:E; [|done].
      apply TimeClip_Some in E as [-> _]. simpl. apply Z.leb_gt.
      unfold msPerDay in *. lia.
    + rewrite TimeClip_in_range by (unfold msPerDay in *; lia).
      rewrite IH; [done | lia | unfold msPerDay in *; lia | done
                  | unfold msPerDay in *; lia].
Qed.

Lemma daysLoop_valid zone fuel : forall d last acc l,
  daysLoop zone fuel d last acc = Some l ->
  Forall is_Some acc -> Forall is_Some l.
Proof.
  induction fuel as [|fuel IH]; intros d last acc l; [discriminate|]. simpl.
  destruct (date_le d last) eqn:E.
  - intros H Hacc. eapply IH; [exact H|]. apply Forall_app; split; [done|].
    constructor; [|done]. destruct d; [eauto|discriminate].
  - by intros [= <-].
Qed.

Lemma daysLoop_invalid_start zone fuel last l :
  daysLoop zone fuel None last [] = Some l -> l = [].
Proof. destruct fuel; [discriminate|]. simpl. by intros [= <-]. Qed.

(** The shape of every grid the component returns. *)
Lemma Calendar_shape zone fuel now currentDate postsByDate grid :
  Calendar zone fuel now currentDate postsByDate = Some grid ->
  exists first daysInMonth,
    first = newDate zone (getFullYear zone currentDate)
                    (getMonth zone currentDate) (Some 1)
    /\ daysLoop zone fuel first
         (newDate zone (getFullYear zone currentDate)
                  (number_add (getMonth zone currentDate) 1) (Some 0)) []
       = Some daysInMonth
    /\ Forall is_Some daysInMonth
    /\ emptyCells grid = array_from_length (getDay zone first)
    /\ dayCells grid
       = imap (renderCell zone postsByDate (Some now) (getDay zone first)
                 (length daysInMonth)) daysInMonth.
Proof.
  unfold Calendar. cbv zeta.
  destruct (daysLoop _ _ _ _ []) as [l|] eqn:E; [|discriminate].
  intros [= <-]. eexists _, l. split; [reflexivity|]. split; [exact E|].
  split; [by eapply daysLoop_valid|]. done.
Qed.

Lemma newDate_clip tza y mn dt :
  newDate (fixedZone tza) (Some y) (Some mn) (Some dt)
  = TimeClip (civil (MakeFullYear y) mn dt - tza).
Proof. reflexivity. Qed.

Lemma array_from_length_getDay zone d :
  (length (array_from_length (getDay zone d)) <= 6)%nat.
Proof.
  destruct d as [t|]; simpl; [|lia]. rewrite length_seq.
  pose proof (WeekDay_range (LocalTime zone t)). lia.
Qed.

(** Every grid of a valid current date: the month [M] of the year the
    constructor makes of [Y] when the first and the last day of that month
    are time values, and no day cell otherwise. *)
Lemma Calendar_general tza fuel now tv postsByDate :
  (32 <= fuel)%nat ->
  let yr := MakeFullYear (YearFromTime (LocalTime (fixedZone tza) tv)) in
  let M := MonthFromTime (LocalTime (fixedZone tza) tv) in
  let a := civil yr M 1 - tza in
  let b := civil yr M (DaysInMonth yr M) - tza in
  exists grid,
    Calendar (fixedZone tza) fuel now (Some tv) postsByDate = Some grid
    /\ (Z.abs a <= 8640000000000000 -> Z.abs b <= 8640000000000000 ->
        emptyCells grid = seq 0 (Z.to_nat (WeekDay (civil yr M 1)))
        /\ dayCells grid
           = imap (renderCell (fixedZone tza) postsByDate (Some now)
                     (Some (WeekDay (civil yr M 1))) (Z.to_nat (DaysInMonth yr M)))
               (days_from a (Z.to_nat (DaysInMonth yr M))))
    /\ (~ (Z.abs a <= 8640000000000000 /\ Z.abs b <= 8640000000000000) ->
        dayCells grid = []).
Proof.
  intros Hf yr M a b.
  pose proof (MonthFromTime_range (LocalTime (fixedZone tza) tv)) as Hm. fold M in Hm.
  pose proof (DaysInMonth_range yr M) as Hn.
  unfold Calendar. cbn [getFullYear getMonth number_add fmap option_fmap option_map].
  cbv zeta. rewrite !newDate_clip. fold yr M.
  unfold civil at 2. rewrite MakeDay_last by done.
  fold (civil yr M (DaysInMonth yr M)). fold a b.
  destruct fuel as [|fuel]; [lia|].
  destruct (TimeClip a) as [a'|] eqn:Ea.
  2:{ rewrite daysLoop_exit by reflexivity. eexists. split; [reflexivity|].
      split; [|done]. intros Ha. by rewrite TimeClip_in_range in Ea. }
  destruct (TimeClip b) as [b'|] eqn:Eb.
  2:{ rewrite daysLoop_exit by reflexivity. eexists. split; [reflexivity|].
      split; [|done]. intros _ Hb. by rewrite TimeClip_in_range in Eb. }
  apply TimeClip_Some in Ea as [-> Ha]. apply TimeClip_Some in Eb as [-> Hb].
  rewrite (daysLoop_between tza (Z.to_nat (DaysInMonth yr M)));
    [ | lia | lia | lia | ].
  - eexists. split; [reflexivity|]. cbn [dayCells emptyCells].
    split; [|intros []; done]. intros _ _.
    rewrite !app_nil_l, days_from_length.
    assert (Hw : getDay (fixedZone tza) (Some a) = Some (WeekDay (civil yr M 1))).
    { unfold getDay, LocalTime, a. cbn [fmap option_fmap option_map LocalTZA fixedZone].
      do 2 f_equal. lia. }
    by rewrite Hw.
  - rewrite Z2Nat.id by lia.
    assert (Hl : civil yr M (DaysInMonth yr M)
                 = civil yr M 1 + (DaysInMonth yr M - 1) * msPerDay).
    { rewrite <- civil_date. f_equal. lia. }
    unfold a, b. rewrite Hl. unfold msPerDay. lia.
Qed.

(** X4: for every current date, valid or not, every zone offset and 32 or
    more units of fuel, the loop of the month grid ends and the component
    renders at most 31 day cells and at most 6 empty cells; for an invalid
    date it renders no cell at all. *)
Theorem Calendar_terminates tza fuel now currentDate postsByDate :
  (32 <= fuel)%nat ->
  exists grid,
    Calendar (fixedZone tza) fuel now currentDate postsByDate = Some grid
    /\ (length (dayCells grid) <= 31)%nat
    /\ (length (emptyCells grid) <= 6)%nat
    /\ (currentDate = None -> dayCells grid = [] /\ emptyCells grid = []).
Proof.
  intros Hf. destruct currentDate as [tv|].
  - destruct (Calendar_general tza fuel now tv postsByDate Hf)
      as (grid & Hgrid & Hin & Hout).
    exists grid. split; [done|].
    destruct (Calendar_shape _ _ _ _ _ _ Hgrid) as (first & l & _ & _ & _ & He & _).
    split; [|split; [rewrite He; apply array_from_length_getDay|done]].
    set (yr := MakeFullYear (YearFromTime (LocalTime (fixedZone tza) tv))) in *.
    set (M := MonthFromTime (LocalTime (fixedZone tza) tv)) in *.
    pose proof (DaysInMonth_range yr M) as Hn.
    destruct (Z_le_dec (Z.abs (civil yr M 1 - tza)) 8640000000000000) as [Ha|Ha];
      [destruct (Z_le_dec (Z.abs (civil yr M (DaysInMonth yr M) - tza))
                  8640000000000000) as [Hb|Hb]|].
    + destruct (Hin Ha Hb) as [_ ->]. rewrite length_imap, days_from_length. lia.
    + rewrite Hout by tauto. simpl. lia.
    + rewrite Hout by tauto. simpl. lia.
  - destruct fuel as [|fuel]; [lia|]. eexists. split; [reflexivity|].
    simpl. repeat split; lia.
Qed.

Lemma Calendar_terminates_witness :
  exists grid, Calendar (fixedZone 0) 32 march10 None ∅ = Some grid /\ dayCells grid = [].
Proof.
  destruct (Calendar_terminates 0 32 march10 None ∅ ltac:(lia))
    as (grid & Hgrid & _ & _ & Hnone).
  exists grid. split; [exact Hgrid|]. by destruct (Hnone eq_refl).
Defined.

(** X5: on a host whose zone offsets are at most a day and whose clock keeps
    every local midnight of month [M] of year 1900 + [Y], for a current date
    in month [M] of a year [Y] from 0 to 99 the component renders the grid of
    month [M] of year 1900 + [Y]: its cells are the days of that month and
    its leading empty cells the weekday index of that month's day 1. *)
Theorem Calendar_two_digit_year zone fuel now tv postsByDate Y M :
  zone_bounded zone ->
  midnights_kept zone (1900 + Y) M ->
  getFullYear zone (Some tv) = Some Y ->
  getMonth zone (Some tv) = Some M ->
  0 <= Y <= 99 ->
  (32 <= fuel)%nat ->
  exists grid,
    Calendar zone fuel now (Some tv) postsByDate = Some grid
    /\ month_grid zone (1900 + Y) M grid.
Proof.
  intros Hb Hk HY HM Hy Hf.
  assert (Hm : 0 <= M <= 11).
  { injection HM as <-. apply MonthFromTime_range. }
  assert (Hyr : MakeFullYear Y = 1900 + Y).
  { unfold MakeFullYear. destruct (Z.leb_spec 0 Y), (Z.leb_spec Y 99); simpl; lia. }
  destruct (Calendar_midnights zone fuel now tv postsByDate Y M (1900 + Y) Hb HY HM Hyr
              ltac:(lia) Hk Hf) as (grid & Hgrid & He & Hd).
  exists grid. split; [done|].
  by destruct (month_grid_midnights zone now postsByDate (1900 + Y) M grid Hm Hk He Hd).
Qed.

Lemma Calendar_two_digit_year_witness :
  exists grid,
    Calendar (fixedZone 0) 40 march10 (Some jan15_year50) ∅ = Some grid
    /\ length (dayCells grid) = 31%nat /\ length (emptyCells grid) = 0%nat.
Proof.
  destruct (Calendar_two_digit_year (fixedZone 0) 40 march10 jan15_year50 ∅ 50 0)
    as (grid & Hgrid & Hcount & Hblank & _).
  - apply fixedZone_bounded. unfold zone_offset, msPerDay. lia.
  - apply fixedZone_midnights.
  - reflexivity.
  - reflexivity.
  - lia.
  - lia.
  - exists grid. split; [exact Hgrid|].
    split; apply Nat2Z.inj; [rewrite Hcount | rewrite Hblank]; reflexivity.
Defined.

(** * Cell borders and cell contents *)

Lemma ceil_div7_floor x : ceil_div7 x = (x - 1) / 7 + 1.
Proof. unfold ceil_div7. zdiv. Qed.

(** X6: in every grid the component returns, a day cell is marked last
    column exactly when its position (leading empty cells included) is in
    the seventh column, and last row exactly when it is in the row of the
    month's last day. *)
Theorem Calendar_borders zone fuel now currentDate postsByDate grid :
  Calendar zone fuel now currentDate postsByDate = Some grid ->
  forall i cell, dayCells grid !! i = Some cell ->
    let position := Z.of_nat (length (emptyCells grid)) + Z.of_nat i in
    let last := Z.of_nat (length (emptyCells grid))
                + Z.of_nat (length (dayCells grid)) - 1 in
    (isLastCol cell = true <-> position mod 7 = 6)
    /\ (isLastRow cell = true <-> position / 7 = last / 7).
Proof.
  intros Hgrid i cell Hcell.
  destruct (Calendar_shape _ _ _ _ _ _ Hgrid) as (first & l & _ & Hloop & _ & He & Hd).
  rewrite Hd in Hcell. rewrite He, Hd, length_imap.
  rewrite list_lookup_imap in Hcell.
  destruct (l !! i) as [d|] eqn:Ed; [|discriminate]. injection Hcell as <-.
  destruct first as [a|].
  2:{ apply daysLoop_invalid_start in Hloop. by subst l. }
  cbn [getDay fmap option_fmap option_map array_from_length renderCell isLastCol isLastRow].
  pose proof (WeekDay_range (LocalTime zone a)) as Hw.
  rewrite length_seq, Z2Nat.id by lia. cbv zeta.
  rewrite Z.eqb_eq, Z.eqb_eq, !ceil_div7_floor.
  split; [done|].
  replace (WeekDay (LocalTime zone a) + Z.of_nat i + 1 - 1)
    with (WeekDay (LocalTime zone a) + Z.of_nat i) by lia.
  split; lia.
Qed.

Lemma Calendar_borders_witness :
  exists grid cell,
    Calendar (fixedZone 0) 40 march10 (Some march10) ∅ = Some grid
    /\ dayCells grid !! 30%nat = Some cell
    /\ isLastCol cell = false /\ isLastRow cell = true.
Proof.
  eassert (Hgrid : Calendar (fixedZone 0) 40 march10 (Some march10) ∅ = Some _)
    by (vm_compute; reflexivity).
  match type of Hgrid with
  | _ = Some ?g => eassert (Hcell : dayCells g !! 30%nat = Some _) by reflexivity
  end.
  destruct (Calendar_borders (fixedZone 0) 40 march10 (Some march10) ∅ _ Hgrid 30%nat _ Hcell)
    as [Hcol Hrow].
  eexists _, _. split; [exact Hgrid|]. split; [exact Hcell|].
  split; [reflexivity|]. apply Hrow. reflexivity.
Defined.

Lemma same_key_same_date zone t d Y M D :
  getFullYear zone (Some t) = Some Y -> getMonth zone (Some t) = Some M ->
  getDate zone (Some t) = Some D ->
  toDateString zone d = toDateString zone (Some t)
  <-> getFullYear zone d = Some Y /\ getMonth zone d = Some M
      /\ getDate zone d = Some D.
Proof.
  intros [= HY] [= HM] [= HD]. destruct d as [t'|].
  - rewrite toDateString_Day. cbn [getFullYear getMonth getDate fmap option_fmap option_map].
    split.
    + intros HDay. destruct (fields_of_Day _ _ HDay) as (H1 & H2 & H3 & _).
      by rewrite H1, H2, H3, HY, HM, HD.
    + intros ([= H1] & [= H2] & [= H3]).
      rewrite <- (MakeDay_fields (LocalTime zone t')),
              <- (MakeDay_fields (LocalTime zone t)). congruence.
  - split.
    + intros H. symmetry in H. by apply DateString_not_invalid in H.
    + intros [[=] _].
Qed.

Lemma postsByDate_default (zone : TimeZone) (l : list Post) k :
  default [] (postsByDate zone l !! k) = on_key zone k l.
Proof. rewrite postsByDate_lookup. by destruct (on_key zone k l). Qed.

(** X7: in every grid the component returns for the buckets of a post
    list, a day cell shows exactly the posts of the list whose date has the
    cell's local year, month and day of the month, in the order of the
    list. *)
Theorem Calendar_cell_posts zone fuel now currentDate (l : list Post) grid :
  Calendar zone fuel now currentDate (postsByDate zone l) = Some grid ->
  forall i cell, dayCells grid !! i = Some cell ->
    exists Y M D,
      getFullYear zone (cell_date cell) = Some Y
      /\ getMonth zone (cell_date cell) = Some M
      /\ getDate zone (cell_date cell) = Some D
      /\ postsForDay cell
         = List.filter (fun p => bool_decide (dated_on zone Y M D p)) l.
Proof.
  intros Hgrid i cell Hcell.
  destruct (Calendar_shape _ _ _ _ _ _ Hgrid) as (first & ds & _ & _ & Hvalid & _ & Hd).
  rewrite Hd, list_lookup_imap in Hcell.
  destruct (ds !! i) as [d|] eqn:Ed; [|discriminate]. injection Hcell as <-.
  rewrite Forall_forall in Hvalid.
  destruct (Hvalid d) as [t ->]; [by eapply list_elem_of_lookup_2|].
  eexists _, _, _. cbn [renderCell cell_date postsForDay].
  split; [reflexivity|]. split; [reflexivity|]. split; [reflexivity|].
  rewrite postsByDate_default. unfold on_key. apply List.filter_ext. intros p.
  apply bool_decide_ext. by apply same_key_same_date.
Qed.

Lemma Calendar_cell_posts_witness :
  exists grid cell,
    Calendar (fixedZone 0) 40 march10 (Some march10)
      (postsByDate (fixedZone 0) [postWithId (str "1"); postWithId (str "2")]) = Some grid
    /\ dayCells grid !! 9%nat = Some cell
    /\ List.length (postsForDay cell) = 2%nat.
Proof.
  eassert (Hgrid : Calendar (fixedZone 0) 40 march10 (Some march10)
             (postsByDate (fixedZone 0) [postWithId (str "1"); postWithId (str "2")]) = Some _)
    by (vm_compute; reflexivity).
  match type of Hgrid with
  | _ = Some ?g => eassert (Hcell : dayCells g !! 9%nat = Some _) by reflexivity
  end.
  destruct (Calendar_cell_posts (fixedZone 0) 40 march10 (Some march10) _ _ Hgrid 9%nat _ Hcell)
    as (Y & M & D & HY & HM & HD & Hposts).
  eexists _, _. split; [exact Hgrid|]. split; [exact Hcell|].
  rewrite Hposts. vm_compute in HY, HM, HD.
  injection HY as <-. injection HM as <-. injection HD as <-. reflexivity.
Defined.

(** * The store and its buckets together *)

Lemma on_key_app zone k l1 l2 :
  on_key zone k (l1 ++ l2) = on_key zone k l1 ++ on_key zone k l2.
Proof. unfold on_key. apply List.filter_app. Qed.

Lemma filter_filter_comm {A} (f g : A -> bool) l :
  List.filter f (List.filter g l) = List.filter g (List.filter f l).
Proof.
  induction l as [|x l IH]; [done|]. simpl.
  destruct (f x) eqn:Ef, (g x) eqn:Eg; simpl; rewrite ?Ef, ?Eg, IH; done.
Qed.

(** X9: after a delete, what a day shows is what it showed before without
    the posts of the deleted id, in the same order. *)
Theorem deleted_post_leaves_its_day (zone : TimeZone) postId st k :
  default [] (postsByDate zone (posts (handleDeletePost postId st)) !! k)
  = List.filter (fun p => negb (bool_decide (post_id p = postId)))
      (default [] (postsByDate zone (posts st) !! k)).
Proof.
  rewrite !postsByDate_default, handleDeletePost_posts. unfold on_key.
  apply filter_filter_comm.
Qed.

(** * Ids *)

Lemma toISOString_nonempty now : toISOString now <> [].
Proof.
  rewrite toISOString_eq. intros H. apply app_eq_nil in H as [_ H]. discriminate H.
Qed.

Lemma handleSavePost_update_ids now postToSave st i :
  input_id postToSave = Some i -> i <> [] ->
  List.map post_id (posts (handleSavePost now postToSave st))
  = List.map post_id (posts st).
Proof.
  intros Hid Hne. rewrite (handleSavePost_update _ _ _ _ Hid Hne).
  rewrite List.map_map. apply List.map_ext. intros p. by case_bool_decide.
Qed.

Lemma handleSavePost_ids now postToSave st :
  List.map post_id (posts (handleSavePost now postToSave st))
  = if from_option truthy_string false (input_id postToSave)
    then List.map post_id (posts st)
    else List.map post_id (posts st) ++ [toISOString now].
Proof.
  destruct (from_option truthy_string false (input_id postToSave)) eqn:E.
  - destruct (input_id postToSave) as [i|] eqn:Hid; [|discriminate].
    apply (handleSavePost_update_ids _ _ _ i Hid). by destruct i.
  - rewrite handleSavePost_create by done. by rewrite List.map_app.
Qed.

Lemma ids_nonempty_map l : ids_nonempty l <-> ~ In [] (List.map post_id l).
Proof.
  unfold ids_nonempty. rewrite in_map_iff. split.
  - intros H (p & Hp & Hin). by apply (H p).
  - intros H p Hin Hp. apply H. eauto.
Qed.

(** X10: if no stored post has the empty string as id, then none has after
    a save (whatever the input and the instant) nor after a delete. *)
Theorem ids_stay_nonempty now postToSave postId st :
  ids_nonempty (posts st) ->
  ids_nonempty (posts (handleSavePost now postToSave st))
  /\ ids_nonempty (posts (handleDeletePost postId st)).
Proof.
  intros H. split.
  - rewrite ids_nonempty_map in *. rewrite handleSavePost_ids.
    destruct (from_option truthy_string false (input_id postToSave)); [done|].
    rewrite in_app_iff. intros [Hin | [Hin | []]]; [done|].
    by apply (toISOString_nonempty now).
  - intros p Hp. rewrite handleDeletePost_posts in Hp.
    apply filter_In in Hp as [Hp _]. by apply H.
Qed.

Lemma ids_stay_nonempty_witness :
  ids_nonempty (posts (handleSavePost march10 (draftInput (Some []))
                         (storeOf (Some march10) [postWithId (str "1")]))).
Proof.
  apply (ids_stay_nonempty march10 (draftInput (Some [])) [] 
           (storeOf (Some march10) [postWithId (str "1")])).
  intros p [<- | []]. discriminate.
Defined.

Lemma NoDup_snoc {A} (l : list A) x : List.NoDup (l ++ [x]) <-> List.NoDup l /\ ~ In x l.
Proof.
  split.
  - intros H. apply NoDup_remove in H. rewrite app_nil_r in H. destruct H as [H1 H2]. done.
  - intros [H1 H2]. apply NoDup_ListNoDup. apply NoDup_ListNoDup in H1.
    apply NoDup_app. split; [done|]. split; [|apply NoDup_singleton].
    intros y Hy Hx. apply list_elem_of_singleton in Hx as ->.
    apply H2. by apply list_elem_of_In.
Qed.

(** X11: if the stored ids are pairwise distinct, they still are after a
    delete and after a save that updates; after a save that creates they
    are exactly when no stored post already carries the timestamp of the
    instant of the save. *)
Theorem ids_stay_distinct now postToSave postId st :
  ids_distinct (posts st) ->
  ids_distinct (posts (handleDeletePost postId st))
  /\ (from_option truthy_string false (input_id postToSave) = true ->
      ids_distinct (posts (handleSavePost now postToSave st)))
  /\ (from_option truthy_string false (input_id postToSave) = false ->
      (ids_distinct (posts (handleSavePost now postToSave st))
       <-> forall p, In p (posts st) -> post_id p <> toISOString now)).
Proof.
  unfold ids_distinct. intros H. split; [|split].
  - rewrite handleDeletePost_posts. induction (posts st) as [|p l IH]; [done|].
    simpl in *. inversion H as [|? ? Hp Hl]; subst.
    destruct (negb _); simpl; [|by apply IH].
    constructor; [|by apply IH]. rewrite in_map_iff in *.
    intros (q & Hq & Hin). apply Hp. exists q. split; [done|].
    by apply filter_In in Hin as [Hin _].
  - intros E. by rewrite handleSavePost_ids, E.
  - intros E. rewrite handleSavePost_ids, E, NoDup_snoc, in_map_iff. split.
    + intros [_ Hfresh] p Hp Heq. apply Hfresh. eauto.
    + intros Hfresh. split; [done|]. intros (p & Heq & Hp). by apply (Hfresh p).
Qed.

Lemma ids_stay_distinct_witness :
  ids_distinct (posts (handleSavePost march10 (draftInput None)
                         (storeOf (Some march10) [postWithId (str "1")]))).
Proof.
  destruct (ids_stay_distinct march10 (draftInput None) []
              (storeOf (Some march10) [postWithId (str "1")])) as (_ & _ & H).
  - repeat constructor. intros [].
  - apply (H eq_refl). intros p [<- | []]. vm_compute. discriminate.
Defined.

Lemma filter_none {A} (f : A -> bool) l :
  (forall x, In x l -> f x = true) -> List.filter f l = l.
Proof.
  induction l as [|x l IH]; [done|]. intros H. simpl.
  rewrite H by (by left). f_equal. apply IH. intros y Hy. apply H. by right.
Qed.

Lemma handleSavePost_frame now postToSave st :
  isModalOpen (handleSavePost now postToSave st) = false
  /\ selectedPost (handleSavePost now postToSave st) = None
  /\ selectedDate (handleSavePost now postToSave st) = None
  /\ currentDate (handleSavePost now postToSave st) = currentDate st.
Proof.
  unfold handleSavePost. destruct (input_id postToSave) as [[|c i]|]; done.
Qed.

Lemma clickSave_post now m P st :
  selectedPost st = Some P ->
  clickSave now m st
  = Normal (handleSavePost now
              {| input_id := Some (post_id P); input_date := date P;
                 input_images := m_images m; input_caption := m_caption m;
                 input_status := m_status m; input_comments := m_comments m |} st).
Proof. intros Hsel. unfold clickSave. by rewrite Hsel. Qed.

Lemma clickSave_date now m d st :
  selectedPost st = None -> selectedDate st = Some d ->
  clickSave now m st
  = Normal (handleSavePost now
              {| input_id := None; input_date := d;
                 input_images := m_images m; input_caption := m_caption m;
                 input_status := m_status m; input_comments := m_comments m |} st).
Proof. intros Hsel Hd. unfold clickSave. by rewrite Hsel, Hd. Qed.

(** X8: pressing Save in the modal opened from a day cell appends one post
    dated on that day with the buffer's fields, closes the modal, puts the
    new post last in the bucket of that day and leaves every other bucket
    as it was. *)
Theorem created_post_lands_on_clicked_day (zone : TimeZone) now m d st :
  exists st' newPost,
    clickSave now m (handleSelectDate d st) = Normal st'
    /\ newPost = {| post_id := toISOString now; date := d;
                    images := m_images m; caption := m_caption m;
                    status := m_status m; comments := m_comments m |}
    /\ posts st' = posts st ++ [newPost]
    /\ isModalOpen st' = false
    /\ forall k,
         postsByDate zone (posts st') !! k
         = if bool_decide (toDateString zone d = k)
           then Some (default [] (postsByDate zone (posts st) !! k) ++ [newPost])
           else postsByDate zone (posts st) !! k.
Proof.
  rewrite (clickSave_date now m d (handleSelectDate d st) eq_refl eq_refl).
  eexists _, _. split; [reflexivity|]. split; [reflexivity|].
  split; [reflexivity|]. split; [reflexivity|].
  intros k. cbn [posts handleSavePost handleCloseModal setPosts input_id handleSelectDate].
  rewrite postsByDate_default, !postsByDate_lookup, on_key_app.
  unfold on_key at 2. simpl.
  case_bool_decide as Hk.
  - by destruct (on_key zone k (posts st)).
  - by rewrite app_nil_r.
Qed.

(** X12: in a store with pairwise distinct ids, confirming the delete of
    a stored post opened in the modal removes that one post, keeps the
    others in their order and closes the modal; declining the confirmation
    changes nothing. *)
Theorem modal_delete_removes_exactly_one P st :
  ids_distinct (posts st) -> In P (posts st) ->
  clickDelete false (handleSelectPost P st) = handleSelectPost P st
  /\ exists l1 l2,
       posts st = l1 ++ P :: l2
       /\ posts (clickDelete true (handleSelectPost P st)) = l1 ++ l2
       /\ isModalOpen (clickDelete true (handleSelectPost P st)) = false
       /\ selectedPost (clickDelete true (handleSelectPost P st)) = None.
Proof.
  unfold ids_distinct. intros Hd Hin. split; [reflexivity|].
  apply in_split in Hin as (l1 & l2 & Hsplit). exists l1, l2. split; [done|].
  split; [|done].
  change (posts (clickDelete true (handleSelectPost P st)))
    with (List.filter (fun p => negb (bool_decide (post_id p = post_id P))) (posts st)).
  rewrite Hsplit in *. rewrite List.map_app in Hd. simpl in Hd.
  pose proof (NoDup_remove_2 _ _ _ Hd) as Hnot.
  rewrite in_app_iff, !in_map_iff in Hnot.
  rewrite List.filter_app. simpl. rewrite bool_decide_eq_true_2 by done. simpl.
  rewrite !filter_none; [done|..]; intros q Hq; apply negb_true_iff,
    bool_decide_eq_false_2; intros Heq; apply Hnot; eauto.
Qed.

Lemma modal_delete_removes_exactly_one_witness :
  posts (clickDelete true
           (handleSelectPost (postWithId (str "1"))
              (storeOf (Some march10)
                 [postWithId (str "1"); postWithId (str "2"); postWithId (str "3")])))
  = [postWithId (str "2"); postWithId (str "3")].
Proof.
  destruct (modal_delete_removes_exactly_one (postWithId (str "1"))
              (storeOf (Some march10)
                 [postWithId (str "1"); postWithId (str "2"); postWithId (str "3")]))
    as (_ & l1 & l2 & _ & Hdel & _).
  - unfold ids_distinct. simpl. repeat constructor; simpl; intuition discriminate.
  - left. reflexivity.
  - reflexivity.
Defined.

(** X13: deleting the id of a post just created removes it together with
    every stored post that carries the same timestamp; so when the
    timestamp was new, create followed by delete gives the post list
    back. *)
Theorem create_then_delete now postToSave st :
  from_option truthy_string false (input_id postToSave) = false ->
  let created := handleSavePost now postToSave st in
  posts (handleDeletePost (toISOString now) created)
  = List.filter (fun p => negb (bool_decide (post_id p = toISOString now))) (posts st)
  /\ ((forall p, In p (posts st) -> post_id p <> toISOString now) ->
      posts (handleDeletePost (toISOString now) created) = posts st).
Proof.
  intros Hid created. unfold created.
  rewrite handleDeletePost_posts, handleSavePost_create by done.
  rewrite List.filter_app. simpl. rewrite bool_decide_eq_true_2 by done. simpl.
  rewrite app_nil_r. split; [done|].
  intros Hfresh. apply filter_none. intros p Hp.
  apply negb_true_iff, bool_decide_eq_false_2. by apply Hfresh.
Qed.

Lemma create_then_delete_witness :
  posts (handleDeletePost (toISOString march10)
           (handleSavePost march10 (draftInput None)
              (storeOf (Some march10) [postWithId (str "1")])))
  = [postWithId (str "1")].
Proof.
  destruct (create_then_delete march10 (draftInput None)
              (storeOf (Some march10) [postWithId (str "1")]) eq_refl) as [_ H].
  apply H. intros p [<- | []]. vm_compute. discriminate.
Defined.

(** * Opening a post and saving it *)

(** X14: in a store with pairwise distinct ids, opening a stored post
    with a non-empty id, loading it into the buffer and pressing Save
    without an edit leaves every post as it was and closes the modal. *)
Theorem open_and_save_unchanged now m P st :
  ids_distinct (posts st) -> In P (posts st) -> post_id P <> [] ->
  clickSave now (loadPost (Some P) m) (handleSelectPost P st)
  = Normal (handleCloseModal st).
Proof.
  intros Hd Hin Hne. rewrite (clickSave_post _ _ P) by reflexivity. f_equal.
  assert (Hposts : posts (handleSavePost now
            {| input_id := Some (post_id P); input_date := date P;
               input_images := m_images (loadPost (Some P) m);
               input_caption := m_caption (loadPost (Some P) m);
               input_status := m_status (loadPost (Some P) m);
               input_comments := m_comments (loadPost (Some P) m) |}
            (handleSelectPost P st)) = posts st).
  { erewrite handleSavePost_update; [|reflexivity|exact Hne].
    cbn [posts handleSelectPost]. unfold ids_distinct in Hd.
    induction (posts st) as [|q l IH]; [done|]. simpl in *.
    inversion Hd as [|? ? Hq Hl]; subst.
    assert (Hrest : forall l', ~ In (post_id P) (List.map post_id l') ->
      List.map (fun p => if bool_decide (post_id p = post_id P)
                         then spread_with_id
                                {| input_id := Some (post_id P); input_date := date P;
                                   input_images := images P; input_caption := caption P;
                                   input_status := status P; input_comments := comments P |}
                                (post_id P)
                         else p) l' = l').
    { induction l' as [|x l' IH']; [done|]. simpl. intros Hx.
      rewrite bool_decide_eq_false_2 by (intros Heq; apply Hx; by left).
      f_equal. apply IH'. intros Hin'. apply Hx. by right. }
    destruct Hin as [-> | Hin].
    - rewrite bool_decide_eq_true_2 by done. f_equal; [by destruct P|].
      by apply Hrest.
    - rewrite bool_decide_eq_false_2.
      + f_equal. by apply IH.
      + intros Heq. apply Hq. rewrite Heq. by apply in_map. }
  unfold handleSavePost in *. cbn [input_id] in *.
  destruct (truthy_string (post_id P)); unfold handleCloseModal in *;
    cbn [currentDate posts isModalOpen selectedPost selectedDate setPosts handleSelectPost] in *;
    by rewrite Hposts.
Qed.

Lemma open_and_save_unchanged_witness :
  clickSave march10 (loadPost (Some (postWithId (str "2"))) emptyModal)
    (handleSelectPost (postWithId (str "2"))
       (storeOf (Some march10) [postWithId (str "1"); postWithId (str "2")]))
  = Normal (storeOf (Some march10) [postWithId (str "1"); postWithId (str "2")]).
Proof.
  apply (open_and_save_unchanged march10 emptyModal (postWithId (str "2"))
           (storeOf (Some march10) [postWithId (str "1"); postWithId (str "2")])).
  - unfold ids_distinct. simpl. repeat constructor; simpl; intuition discriminate.
  - right. left. reflexivity.
  - discriminate.
Defined.

(** * Reachable states *)

Lemma handleSavePost_nonempty now postToSave st :
  ids_nonempty (posts st) -> ids_nonempty (posts (handleSavePost now postToSave st)).
Proof.
  intros H p Hp.
  destruct (from_option truthy_string false (input_id postToSave)) eqn:E.
  - destruct (input_id postToSave) as [i|] eqn:Hid; [|discriminate].
    assert (Hne : i <> []) by (by destruct i).
    rewrite (handleSavePost_update _ _ _ i Hid Hne) in Hp.
    apply in_map_iff in Hp as (q & <- & Hq). case_bool_decide; [done|by apply H].
  - rewrite handleSavePost_create in Hp by done.
    apply in_app_iff in Hp as [Hp | [<- | []]]; [by apply H|].
    apply toISOString_nonempty.
Qed.

Lemma clickSave_cases now m st :
  clickSave now m st = Normal st
  \/ exists postToSave, clickSave now m st = Normal (handleSavePost now postToSave st).
Proof.
  unfold clickSave, handleSave.
  destruct (selectedPost st); [right; by eexists|].
  destruct (selectedDate st); [right; by eexists|by left].
Qed.

Lemma modal_consistent_closed st :
  isModalOpen st = false -> selectedPost st = None -> selectedDate st = None ->
  modal_consistent st.
Proof. intros H1 H2 H3. split; [by rewrite H1|done]. Qed.

Lemma handle_keeps zone st e :
  enabled st e ->
  modal_consistent st /\ ids_nonempty (posts st) ->
  modal_consistent (handle zone st e) /\ ids_nonempty (posts (handle zone st e)).
Proof.
  intros He [Hm Hi]. destruct e as [d|post| |now m|confirm| | |now]; simpl in *.
  - split; [|done]. split; [|done]. intros _. right. by exists d.
  - split; [|done]. split; [|done]. intros _. left. by exists post.
  - split; [|done]. by apply modal_consistent_closed.
  - destruct (clickSave_cases now m st) as [-> | [postToSave ->]]; [done|].
    destruct (handleSavePost_frame now postToSave st) as (H1 & H2 & H3 & _).
    split; [by apply modal_consistent_closed|by apply handleSavePost_nonempty].
  - unfold clickDelete. destruct (handleDelete (selectedPost st) confirm); [|done].
    split; [by apply modal_consistent_closed|].
    intros p Hp. rewrite handleDeletePost_posts in Hp.
    apply filter_In in Hp as [Hp _]. by apply Hi.
  - done.
  - done.
  - done.
Qed.

Lemma reachable_invariant zone st :
  reachable zone st -> modal_consistent st /\ ids_nonempty (posts st).
Proof.
  induction 1 as [t0 t1 t2 t3 t4 | st e _ IH He].
  - split; [by apply modal_consistent_closed|].
    intros p [<- | [<- | []]]; discriminate.
  - by apply handle_keeps.
Qed.

(** X15: in every state the application can reach, while the modal is
    open a date is resolvable: pressing Save always calls [onSave] and
    closes the modal, and [handleSave] never takes its silent return. *)
Theorem reachable_save_is_never_silent zone st now m :
  reachable zone st -> isModalOpen st = true ->
  exists postToSave,
    handleSave (selectedPost st) (selectedDate st) m = Normal (Some postToSave)
    /\ clickSave now m st = Normal (handleSavePost now postToSave st)
    /\ isModalOpen (handleSavePost now postToSave st) = false.
Proof.
  intros Hr Hopen. destruct (reachable_invariant _ _ Hr) as [[Hm _] _].
  destruct (Hm Hopen) as [(p & Hp & Hd & _) | (d & Hp & Hd)];
    unfold clickSave, handleSave; rewrite Hp, ?Hd; eexists;
    (split; [reflexivity|]); (split; [reflexivity|]); apply handleSavePost_frame.
Qed.

Lemma reachable_save_is_never_silent_witness :
  exists postToSave,
    handleSave None (Some (Some march10)) emptyModal = Normal (Some postToSave).
Proof.
  destruct (reachable_save_is_never_silent (fixedZone 0)
              (handle (fixedZone 0)
                 (initialState (fixedZone 0) march10 march10 march10 march10 march10)
                 (ClickDay (Some march10)))
              march10 emptyModal) as (postToSave & H & _).
  - apply reachable_handle; [apply reachable_initial|exact I].
  - reflexivity.
  - exists postToSave. exact H.
Defined.

(** X16: in every state the application can reach, the post open in the
    modal is a stored post with a non-empty id, and pressing Save keeps
    the number of posts, replaces the entries with that id by the buffer's
    images, caption, status and comments under the post's own id and date,
    and leaves the other entries as they were. *)
Theorem reachable_edit_replaces_in_place zone st now m P :
  reachable zone st -> selectedPost st = Some P ->
  In P (posts st)
  /\ post_id P <> []
  /\ exists st',
       clickSave now m st = Normal st'
       /\ length (posts st') = length (posts st)
       /\ forall i q, posts st !! i = Some q ->
            posts st' !! i
            = Some (if bool_decide (post_id q = post_id P)
                    then {| post_id := post_id P; date := date P;
                            images := m_images m; caption := m_caption m;
                            status := m_status m; comments := m_comments m |}
                    else q).
Proof.
  intros Hr Hsel. destruct (reachable_invariant _ _ Hr) as [[Hopen Hclosed] Hids].
  assert (Hin : In P (posts st)).
  { destruct (isModalOpen st) eqn:E.
    - destruct (Hopen eq_refl) as [(p & Hp & _ & Hin) | (d & Hp & _)]; congruence.
    - destruct (Hclosed eq_refl); congruence. }
  split; [done|]. split; [by apply Hids|].
  unfold clickSave, handleSave. rewrite Hsel. simpl. eexists. split; [reflexivity|].
  erewrite handleSavePost_update; [|reflexivity|by apply Hids].
  split; [by rewrite length_map|].
  intros i q Hq. change (List.map ?f ?l) with (f <$> l).
  by rewrite list_lookup_fmap, Hq.
Qed.

Lemma reachable_edit_replaces_in_place_witness :
  exists P st',
    clickSave march10 emptyModal
      (handle (fixedZone 0) (initialState (fixedZone 0) march10 march10 march10 march10 march10)
         (ClickPost P)) = Normal st'
    /\ post_id P = str "1"
    /\ length (posts st') = 2%nat.
Proof.
  set (st0 := initialState (fixedZone 0) march10 march10 march10 march10 march10).
  assert (HP : exists P, posts st0 !! 0%nat = Some P /\ post_id P = str "1")
    by (eexists; split; reflexivity).
  destruct HP as (P & HP & Hid). exists P.
  destruct (reachable_edit_replaces_in_place (fixedZone 0) (handle (fixedZone 0) st0 (ClickPost P))
              march10 emptyModal P) as (_ & _ & st' & Hs & Hlen & _).
  - apply reachable_handle; [apply reachable_initial|].
    change (In P (posts st0)). apply list_elem_of_In. by eapply list_elem_of_lookup_2.
  - reflexivity.
  - exists st'. split; [exact Hs|]. split; [exact Hid|]. rewrite Hlen. reflexivity.
Defined.

(** * Caption generation from the modal *)

Lemma suggestCaption_returns API_KEY generateContent images :
  exists s, suggestCaption API_KEY generateContent images = Normal s.
Proof.
  unfold suggestCaption.
  destruct (from_option truthy_string false API_KEY); simpl; [|by eexists].
  destruct (generateContent (captionRequest images)); simpl; by eexists.
Qed.

(** X17: [handleGenerateCaption] never throws.  Without an image it alerts
    and leaves the buffer as it is.  With images it ends with the
    generating flag cleared and the caption set to what [suggestCaption]
    returned, overwriting any caption typed while the request was pending;
    the images, status, comments and comment draft are as the user left
    them. *)
Theorem handleGenerateCaption_settles API_KEY generateContent meanwhile m :
  exists alert m',
    handleGenerateCaption API_KEY generateContent meanwhile m = Normal (alert, m')
    /\ (m_images m = [] -> alert = Some msg_no_image /\ m' = m)
    /\ (m_images m <> [] ->
        let pending := meanwhile (setIsGeneratingCaption true m) in
        alert = None
        /\ isGeneratingCaption m' = false
        /\ suggestCaption API_KEY generateContent (m_images m) = Normal (m_caption m')
        /\ m_images m' = m_images pending
        /\ m_status m' = m_status pending
        /\ m_comments m' = m_comments pending
        /\ newComment m' = newComment pending).
Proof.
  unfold handleGenerateCaption.
  destruct (m_images m) as [|i l] eqn:E; simpl.
  - eexists _, _. split; [reflexivity|]. split; [done|]. by intros [].
  - destruct (suggestCaption_returns API_KEY generateContent (i :: l)) as [s Hs].
    rewrite Hs. simpl. eexists _, _. split; [reflexivity|].
    split; [discriminate|]. intros _. done.
Qed.

Lemma handleGenerateCaption_settles_witness :
  exists m',
    handleGenerateCaption None (fun _ => Throw (str "offline"))
      (fun m => m) (setImages (fun _ => [str "data:image/png;base64,AAAA"]) emptyModal)
    = Normal (None, m')
    /\ isGeneratingCaption m' = false.
Proof.
  destruct (handleGenerateCaption_settles None (fun _ => Throw (str "offline"))
              (fun m => m)
              (setImages (fun _ => [str "data:image/png;base64,AAAA"]) emptyModal))
    as (alert & m' & Hrun & _ & Hsome).
  destruct (Hsome ltac:(discriminate)) as (-> & Hflag & _).
  exists m'. split; [exact Hrun | exact Hflag].
Defined.

(** * Image upload *)

Lemma omap_id_snoc (l : list (option (list N))) r :
  omap id (l ++ [r]) = omap id l ++ match r with Some x => [x] | None => [] end.
Proof. rewrite omap_app. by destruct r. Qed.

(** While reads are outstanding the callbacks only collect. *)
Lemma onloadend_pending count results : forall u m,
  (filesProcessed u + length results < count)%nat ->
  foldl (onloadend count) (u, m) results
  = ({| newImages := newImages u ++ omap id results;
        filesProcessed := filesProcessed u + length results |}, m).
Proof.
  induction results as [|r results IH] using rev_ind; intros u m Hlt.
  - destruct u as [ni fp]. simpl. by rewrite app_nil_r, Nat.add_0_r.
  - rewrite length_app in Hlt. simpl in Hlt.
    rewrite foldl_snoc, IH by lia. unfold onloadend. cbn [newImages filesProcessed].
    destruct (Nat.eqb_spec (S (filesProcessed u + length results)) count); [lia|].
    rewrite omap_id_snoc, length_app. simpl. f_equal. f_equal.
    + destruct r; by rewrite <- ?app_assoc, ?app_nil_r.
    + lia.
Qed.

(** The last callback appends what was collected. *)
Lemma onloadend_complete count results m :
  length results = count -> (0 < count)%nat ->
  snd (foldl (onloadend count) ({| newImages := []; filesProcessed := 0 |}, m) results)
  = setImages (fun prevImages => prevImages ++ omap id results) m.
Proof.
  intros Hlen Hpos. destruct results as [|r results _] using rev_ind; [simpl in Hlen; lia|].
  rewrite length_app in Hlen. simpl in Hlen.
  rewrite foldl_snoc, onloadend_pending by (simpl; lia).
  unfold onloadend. cbn [newImages filesProcessed snd app].
  destruct (Nat.eqb_spec (S (0 + length results)) count); [|lia].
  simpl. rewrite omap_id_snoc. by destruct r; rewrite ?app_nil_r.
Qed.

(** X18: an upload changes the images only when the last read completes:
    with a null file list, or while a read is outstanding, the images are
    unchanged; when all of a non-empty selection have completed, the string
    results are appended after the existing images in the order in which
    the reads completed. *)
Theorem handleImageUpload_all_or_nothing files results m :
  (files = None -> handleImageUpload files results m = m)
  /\ (forall count, files = Some count ->
        ((length results < count)%nat -> handleImageUpload files results m = m)
        /\ (length results = count -> (0 < count)%nat ->
            handleImageUpload files results m
            = setImages (fun prevImages => prevImages ++ omap id results) m)).
Proof.
  split; [by intros ->|]. intros count ->. unfold handleImageUpload. split.
  - intros Hlt. by rewrite onloadend_pending by (simpl; lia).
  - intros Hlen Hpos. by apply onloadend_complete.
Qed.

Lemma handleImageUpload_all_or_nothing_witness :
  handleImageUpload (Some 3%nat) [Some (str "b"); None] emptyModal = emptyModal
  /\ m_images (handleImageUpload (Some 3%nat) [Some (str "b"); None; Some (str "a")]
                 emptyModal)
     = [str "b"; str "a"].
Proof.
  destruct (handleImageUpload_all_or_nothing (Some 3%nat) [Some (str "b"); None] emptyModal)
    as [_ H1].
  destruct (handleImageUpload_all_or_nothing (Some 3%nat)
              [Some (str "b"); None; Some (str "a")] emptyModal) as [_ H2].
  split.
  - apply (H1 3%nat eq_refl). simpl. lia.
  - destruct (H2 3%nat eq_refl) as [_ H]. rewrite H; [reflexivity|reflexivity|lia].
Defined.

(** X19: when every selected file has been read, in whatever order, the
    images appended are the successfully read ones, each once: a
    permutation of them in selection order, and exactly that order when the
    reads completed in selection order. *)
Theorem handleImageUpload_keeps_every_image selected results m :
  Permutation selected results -> selected <> [] ->
  exists added,
    m_images (handleImageUpload (Some (length selected)) results m)
    = m_images m ++ added
    /\ Permutation (omap id selected) added
    /\ (results = selected -> added = omap id selected).
Proof.
  intros Hperm Hne. exists (omap id results).
  unfold handleImageUpload. rewrite onloadend_complete.
  - split; [done|]. split; [by rewrite Hperm|]. by intros ->.
  - symmetry. by apply Permutation_length.
  - destruct selected; [done|simpl; lia].
Qed.

Lemma handleImageUpload_keeps_every_image_witness :
  exists added,
    m_images (handleImageUpload (Some 2%nat) [Some (str "b"); Some (str "a")] emptyModal)
    = added
    /\ Permutation [str "a"; str "b"] added.
Proof.
  destruct (handleImageUpload_keeps_every_image [Some (str "a"); Some (str "b")]
              [Some (str "b"); Some (str "a")] emptyModal) as (added & Hrun & Hperm & _).
  - apply perm_swap.
  - discriminate.
  - exists added. split; [exact Hrun | exact Hperm].
Defined.

(** * Data URLs *)

Lemma split_comma_nonempty s : split_comma s <> [].
Proof.
  destruct s as [|c s]; [done|]. simpl.
  destruct (c =? 44)%N; [done|]. by destruct (split_comma s).
Qed.

Lemma free_of_cons c x s : free_of c (x :: s) -> x <> c /\ free_of c s.
Proof.
  intros H. split; [apply H; by left|]. intros y Hy. apply H. by right.
Qed.

Lemma split_comma_free s : free_of 44%N s -> split_comma s = [s].
Proof.
  induction s as [|c s IH]; [done|]. intros Hf. simpl.
  apply free_of_cons in Hf as [Hc Hf].
  destruct (N.eqb_spec c 44) as [-> | _]; [done|]. by rewrite IH.
Qed.

Lemma split_comma_app a b :
  free_of 44%N a -> split_comma (a ++ 44%N :: b) = a :: split_comma b.
Proof.
  induction a as [|c a IH]; [done|]. intros Hf. simpl.
  apply free_of_cons in Hf as [Hc Hf].
  destruct (N.eqb_spec c 44) as [-> | _]; [done|]. by rewrite IH.
Qed.

Lemma lazy_group_app g rest :
  free_of 59%N g ->
  (forall x, In x g -> isLineTerminator x = false) ->
  lazy_group (g ++ 59%N :: rest) = Some g.
Proof.
  induction g as [|c g IH]; [done|]. intros Hf Hl. simpl.
  apply free_of_cons in Hf as [Hc Hf].
  destruct (N.eqb_spec c 59) as [-> | _]; [done|].
  rewrite Hl by (by left). rewrite IH; [done|done|].
  intros x Hx. apply Hl. by right.
Qed.

(** X20: for a data URL [data:<mime>;base64,<payload>] whose media type is
    non-empty and free of commas, semicolons and line terminators and
    whose payload has no comma, [base64ToInlineData] returns that media
    type and that payload. *)
Theorem base64ToInlineData_dataURL mime payload :
  mime <> [] ->
  free_of 44%N mime -> free_of 59%N mime ->
  (forall x, In x mime -> isLineTerminator x = false) ->
  free_of 44%N payload ->
  base64ToInlineData (dataURL mime payload)
  = {| mimeType := mime; data := Some payload |}.
Proof.
  intros Hne Hcomma Hsemi Hlt Hpay. unfold base64ToInlineData, dataURL.
  replace (str "data:" ++ mime ++ str ";base64," ++ payload)
    with ((str "data:" ++ mime ++ str ";base64") ++ 44%N :: payload)
    by (rewrite <- !app_assoc; reflexivity).
  rewrite split_comma_app.
  2:{ intros x Hx. apply in_app_iff in Hx as [Hx | Hx].
      - vm_compute in Hx. intuition (subst; discriminate).
      - apply in_app_iff in Hx as [Hx | Hx]; [by apply Hcomma|].
        vm_compute in Hx. intuition (subst; discriminate). }
  rewrite (split_comma_free payload Hpay). cbv zeta. cbn [nth lookup list_lookup].
  assert (Hm : match_mime (str "data:" ++ mime ++ str ";base64") = Some mime).
  { change (str "data:" ++ mime ++ str ";base64")
      with (100%N :: 97%N :: 116%N :: 97%N :: 58%N :: mime ++ 59%N :: str "base64").
    cbn [match_mime N.eqb Pos.eqb]. by rewrite lazy_group_app by auto. }
  rewrite Hm. destruct mime; [done|]. reflexivity.
Qed.

Lemma base64ToInlineData_dataURL_witness :
  base64ToInlineData (str "data:image/png;base64,iVBORw0KGgo=")
  = {| mimeType := str "image/png"; data := Some (str "iVBORw0KGgo=") |}.
Proof.
  apply (base64ToInlineData_dataURL (str "image/png") (str "iVBORw0KGgo=")).
  - discriminate.
  - intros x Hx. vm_compute in Hx. intuition (subst; discriminate).
  - intros x Hx. vm_compute in Hx. intuition (subst; discriminate).
  - intros x Hx. vm_compute in Hx. intuition (subst; reflexivity).
  - intros x Hx. vm_compute in Hx. intuition (subst; discriminate).
Defined.

Lemma split_comma_second s :
  split_comma s !! 1%nat = None <-> ~ In 44%N s.
Proof.
  induction s as [|c s IH]; simpl; [tauto|].
  destruct (N.eqb_spec c 44) as [-> | Hne].
  - pose proof (split_comma_nonempty s) as Hs.
    destruct (split_comma s) eqn:E; [done|].
    simpl. split; [discriminate|]. intros Hn. exfalso. apply Hn. by left.
  - pose proof (split_comma_nonempty s) as Hs.
    destruct (split_comma s) eqn:E; [done|].
    simpl in *. rewrite IH. split.
    + intros Hn [Hc | Hin]; [congruence|done].
    + intros Hn Hin. apply Hn. by right.
Qed.

(** X21: for every string, the media type [base64ToInlineData] returns is
    never empty, the data is undefined exactly when the string has no
    comma, and a defined data has no comma. *)
Theorem base64ToInlineData_any_string s :
  mimeType (base64ToInlineData s) <> []
  /\ (data (base64ToInlineData s) = None <-> ~ In 44%N s)
  /\ (forall d, data (base64ToInlineData s) = Some d -> free_of 44%N d).
Proof.
  unfold base64ToInlineData. cbv zeta. cbn [mimeType data]. split; [|split].
  - destruct (match_mime _) as [[|c g]|]; simpl; discriminate.
  - apply split_comma_second.
  - assert (Hall : forall s piece, In piece (split_comma s) -> free_of 44%N piece).
    { clear. induction s as [|c s IH]; simpl.
      - intros piece [<- | []] x [].
      - destruct (N.eqb_spec c 44) as [-> | Hne].
        + intros piece [<- | Hin]; [intros x []|by apply IH].
        + destruct (split_comma s) as [|p rest] eqn:E; simpl.
          * intros piece [<- | []] x [<- | []]. done.
          * intros piece [<- | Hin].
            -- intros x [<- | Hx]; [done|]. apply (IH p); [by left|done].
            -- apply IH. by right. }
    intros d Hd. apply (Hall s). apply list_elem_of_In. by eapply list_elem_of_lookup_2.
Qed.

(** * Month navigation, there and back *)

Section Navigation.

Variable tza : Z.
Hypothesis tza_bound : zone_offset tza.





End Navigation.

